(** * CompetitionState (code/compstate/compstate.cpp)

    A shallow embedding of the competition state of the minotaur
    controller: the acquisition score of a bounding box, the box store
    with its freshness flags, the tracking flags, the accumulated path
    and the two procedure slots.

    C++ [double] is IEEE 754 binary64 and is embedded as Rocq's primitive
    [float], which is the same format with the same round-to-nearest-even
    operations; [x == y], [x < y] and [x <= y] on doubles are [=?], [<?]
    and [<=?] of [PrimFloat] (false on NaN, and [+0 == -0]).  The literal
    [0.99] denotes the nearest double, in C++ as here.  Every operation
    is taken to round to double, as SSE2 code does (no extended
    precision, no fused multiply-add). *)

From Stdlib Require Import ZArith Lia Bool List String Floats.
Import ListNotations.

Set Warnings "-inexact-float".
Local Open Scope float_scope.

(** ** Data model *)

Module cv.

(** [cv::Rect2d]: four doubles, no invariant on their signs. *)
Record Rect2d : Set := mkRect2d {
  x : float;
  y : float;
  width : float;
  height : float
}.

(** The default-constructed rectangle [cv::Rect2d()]. *)
Definition Rect2d_default : Rect2d := mkRect2d 0 0 0 0.

End cv.

(** A point of the path ([m_path.emplace_back(x, y)]) and the path,
    a [std::vector] of points in insertion order. *)
Definition point2d : Set := (float * float)%type.
Definition path2d : Set := list point2d.

(** The text of a status label.  [center_text] formats its three
    arguments with ["%6s: (%6.1f , %6.1f )"]; the text is a function of
    these arguments, which is what is kept here. *)
Record QString : Set := mkText {
  text_label : string;
  text_x : float;
  text_y : float
}.

(** A label of the status box, as far as this file uses it: [setText]. *)
Record StatusLabel : Set := mkLabel { label_text : QString }.

Definition setText (t : QString) (l : StatusLabel) : StatusLabel :=
  mkLabel t.

(** Modelled from the spec: the type [wall_arr] is declared in a header
    that is not part of the sources; the spec calls it a collection of
    wall geometries, shared by reference and never changed here. *)
Definition wall_arr : Set := list cv.Rect2d.

(** Modelled from the spec: the classes [Procedure] and [ObjectProcedure]
    are declared in headers that are not part of the sources.  A
    procedure is built from the current path, [start] makes it run and
    [stop] signals it to stop. *)
Record Procedure : Set := mkProcedure {
  proc_path : path2d;
  proc_running : bool
}.

Definition Procedure_new (path : path2d) : Procedure := mkProcedure path false.
Definition start (p : Procedure) : Procedure := mkProcedure (proc_path p) true.
Definition stop (p : Procedure) : Procedure := mkProcedure (proc_path p) false.

Definition ObjectProcedure : Set := Procedure.

(** The calibration values read through the global [g_pm]. *)
Record ParamManager : Set := mkParams {
  robot_calib_area : float;
  object_calib_area : float;
  area_acq_r_sigma : float
}.

(** [struct CompetitionState::Impl]. *)
Record Impl : Set := mkImpl {
  box_robot : cv.Rect2d;
  box_object : cv.Rect2d;
  box_target : cv.Rect2d
}.

(** The members of [CompetitionState].  A pointer that may be null is an
    [option]: the two labels, the shared wall array and the two
    [std::unique_ptr] procedure slots. *)
Record CompetitionState : Set := mkState {
  m_impl : Impl;
  m_tracking_robot : bool;
  m_tracking_object : bool;
  m_acquire_walls : bool;
  m_object_type : Z;
  m_robot_loc_label : option StatusLabel;
  m_object_loc_label : option StatusLabel;
  m_robot_box_fresh : bool;
  m_object_box_fresh : bool;
  m_walls : option wall_arr;
  m_path : path2d;
  m_procedure : option Procedure;
  m_object_procedure : option ObjectProcedure
}.

(** What a call can die of: a null label (the debug assertion of
    [acquire_*_box], a null dereference without it) and a null
    procedure slot. *)
Inductive fault : Set :=
| NullLabel
| NullProcedure.

Inductive result (A : Type) : Type :=
| Ok (a : A)
| Fault (f : fault).

Arguments Ok {A} a.
Arguments Fault {A} f.

Definition bind {A B : Type} (r : result A) (k : A -> result B) : result B :=
  match r with
  | Ok a => k a
  | Fault f => Fault f
  end.

(** ** Member updates *)

Definition with_impl (v : Impl) (s : CompetitionState) : CompetitionState :=
  mkState v (m_tracking_robot s) (m_tracking_object s) (m_acquire_walls s)
    (m_object_type s) (m_robot_loc_label s) (m_object_loc_label s)
    (m_robot_box_fresh s) (m_object_box_fresh s) (m_walls s) (m_path s)
    (m_procedure s) (m_object_procedure s).

Definition with_tracking_robot (v : bool) (s : CompetitionState) : CompetitionState :=
  mkState (m_impl s) v (m_tracking_object s) (m_acquire_walls s)
    (m_object_type s) (m_robot_loc_label s) (m_object_loc_label s)
    (m_robot_box_fresh s) (m_object_box_fresh s) (m_walls s) (m_path s)
    (m_procedure s) (m_object_procedure s).

Definition with_tracking_object (v : bool) (s : CompetitionState) : CompetitionState :=
  mkState (m_impl s) (m_tracking_robot s) v (m_acquire_walls s)
    (m_object_type s) (m_robot_loc_label s) (m_object_loc_label s)
    (m_robot_box_fresh s) (m_object_box_fresh s) (m_walls s) (m_path s)
    (m_procedure s) (m_object_procedure s).

Definition with_object_type (v : Z) (s : CompetitionState) : CompetitionState :=
  mkState (m_impl s) (m_tracking_robot s) (m_tracking_object s)
    (m_acquire_walls s) v (m_robot_loc_label s) (m_object_loc_label s)
    (m_robot_box_fresh s) (m_object_box_fresh s) (m_walls s) (m_path s)
    (m_procedure s) (m_object_procedure s).

Definition with_robot_loc_label (v : option StatusLabel) (s : CompetitionState)
  : CompetitionState :=
  mkState (m_impl s) (m_tracking_robot s) (m_tracking_object s)
    (m_acquire_walls s) (m_object_type s) v (m_object_loc_label s)
    (m_robot_box_fresh s) (m_object_box_fresh s) (m_walls s) (m_path s)
    (m_procedure s) (m_object_procedure s).

Definition with_object_loc_label (v : option StatusLabel) (s : CompetitionState)
  : CompetitionState :=
  mkState (m_impl s) (m_tracking_robot s) (m_tracking_object s)
    (m_acquire_walls s) (m_object_type s) (m_robot_loc_label s) v
    (m_robot_box_fresh s) (m_object_box_fresh s) (m_walls s) (m_path s)
    (m_procedure s) (m_object_procedure s).

Definition with_robot_box_fresh (v : bool) (s : CompetitionState) : CompetitionState :=
  mkState (m_impl s) (m_tracking_robot s) (m_tracking_object s)
    (m_acquire_walls s) (m_object_type s) (m_robot_loc_label s)
    (m_object_loc_label s) v (m_object_box_fresh s) (m_walls s) (m_path s)
    (m_procedure s) (m_object_procedure s).

Definition with_object_box_fresh (v : bool) (s : CompetitionState) : CompetitionState :=
  mkState (m_impl s) (m_tracking_robot s) (m_tracking_object s)
    (m_acquire_walls s) (m_object_type s) (m_robot_loc_label s)
    (m_object_loc_label s) (m_robot_box_fresh s) v (m_walls s) (m_path s)
    (m_procedure s) (m_object_procedure s).

Definition with_walls (v : option wall_arr) (s : CompetitionState) : CompetitionState :=
  mkState (m_impl s) (m_tracking_robot s) (m_tracking_object s)
    (m_acquire_walls s) (m_object_type s) (m_robot_loc_label s)
    (m_object_loc_label s) (m_robot_box_fresh s) (m_object_box_fresh s) v
    (m_path s) (m_procedure s) (m_object_procedure s).

Definition with_path (v : path2d) (s : CompetitionState) : CompetitionState :=
  mkState (m_impl s) (m_tracking_robot s) (m_tracking_object s)
    (m_acquire_walls s) (m_object_type s) (m_robot_loc_label s)
    (m_object_loc_label s) (m_robot_box_fresh s) (m_object_box_fresh s)
    (m_walls s) v (m_procedure s) (m_object_procedure s).

Definition with_procedure (v : option Procedure) (s : CompetitionState)
  : CompetitionState :=
  mkState (m_impl s) (m_tracking_robot s) (m_tracking_object s)
    (m_acquire_walls s) (m_object_type s) (m_robot_loc_label s)
    (m_object_loc_label s) (m_robot_box_fresh s) (m_object_box_fresh s)
    (m_walls s) (m_path s) v (m_object_procedure s).

Definition with_object_procedure (v : option ObjectProcedure) (s : CompetitionState)
  : CompetitionState :=
  mkState (m_impl s) (m_tracking_robot s) (m_tracking_object s)
    (m_acquire_walls s) (m_object_type s) (m_robot_loc_label s)
    (m_object_loc_label s) (m_robot_box_fresh s) (m_object_box_fresh s)
    (m_walls s) (m_path s) (m_procedure s) v.

Definition with_box_robot (r : cv.Rect2d) (i : Impl) : Impl :=
  mkImpl r (box_object i) (box_target i).

Definition with_box_object (r : cv.Rect2d) (i : Impl) : Impl :=
  mkImpl (box_robot i) r (box_target i).

Definition with_box_target (r : cv.Rect2d) (i : Impl) : Impl :=
  mkImpl (box_robot i) (box_object i) r.

(** ** The acquisition score *)

(** [static double acquisition_r(const cv::Rect2d &rect, double calibrated_area)].
    [!area] on a double is [area == 0]; [a > b] is [b < a]. *)
Definition acquisition_r (rect : cv.Rect2d) (calibrated_area : float) : float :=
  let area := cv.width rect * cv.height rect in
  if area =? 0 then 1000 else
  let t := if cv.height rect <? cv.width rect
           then cv.width rect / cv.height rect
           else cv.height rect / cv.width rect in
  if t <=? 0.99 then 1000 else
  abs (area - calibrated_area)
    / (if calibrated_area <? area then area else calibrated_area) * t.

(** The quantities the specification names, in its words: the area, the
    larger and the smaller of two doubles, the side ratio
    [max(w,h) / min(w,h)] and the score
    [|area - calibrated_area| / max(area, calibrated_area) * t]. *)
Definition rect_area (rect : cv.Rect2d) : float :=
  cv.width rect * cv.height rect.

(** The larger one is the conditional [a > b ? a : b] of the code, the
    smaller one the other operand. *)
Definition fmax (a b : float) : float := if b <? a then a else b.
Definition fmin (a b : float) : float := if b <? a then b else a.

Definition side_ratio (rect : cv.Rect2d) : float :=
  fmax (cv.width rect) (cv.height rect) / fmin (cv.width rect) (cv.height rect).

Definition area_error_score (area calibrated_area t : float) : float :=
  abs (area - calibrated_area) / fmax area calibrated_area * t.

(** The sign conditions on a side, as comparisons of doubles. *)
Definition negative (a : float) : bool := a <? 0.
Definition nonnegative (a : float) : bool := 0 <=? a.

(** Exactly one of the two sides is negative, the other one is zero or
    positive (a NaN is neither). *)
Definition one_side_negative (rect : cv.Rect2d) : bool :=
  negative (cv.width rect) && nonnegative (cv.height rect)
  || negative (cv.height rect) && nonnegative (cv.width rect).

Definition both_sides_infinite (rect : cv.Rect2d) : bool :=
  is_infinity (cv.width rect) && is_infinity (cv.height rect).

(** [a < b] on doubles as a proposition: the comparison says "less". *)
Definition strictly_less (a b : float) : Prop := (a ?= b) = FLt.

(** The sign of a binary64 value that is not a NaN. *)
Definition has_sign (s : bool) (f : spec_float) : Prop :=
  match f with
  | S754_zero s' | S754_infinity s' | S754_finite s' _ _ => s' = s
  | S754_nan => False
  end.

(** ** The status text *)

(** [static QString center_text(const cv::Rect2d &rect, const char *label)]. *)
Definition center_text (rect : cv.Rect2d) (label : string) : QString :=
  mkText label
    (cv.x rect + cv.width rect / 2)
    (cv.y rect + cv.height rect / 2).

(** ** The competition state *)

(** What the constructor takes from outside this file: whether
    [parent->status_box().lock()] yields the status box, the value of the
    enumerator [UNACQUIRED], and the two freshness flags, which the
    initialiser list does not mention. *)
Record Environment : Set := mkEnv {
  status_box_alive : bool;
  UNACQUIRED : Z;
  robot_box_fresh0 : bool;
  object_box_fresh0 : bool
}.

(** [CompetitionState::CompetitionState(MainWindow *parent)]. *)
Definition CompetitionState_new (env : Environment) : CompetitionState :=
  let add_label (t : QString) : option StatusLabel :=
    if status_box_alive env then Some (mkLabel t) else None in
  mkState
    (mkImpl cv.Rect2d_default cv.Rect2d_default cv.Rect2d_default)
    false false false (UNACQUIRED env)
    (add_label (center_text cv.Rect2d_default "Robot"))
    (add_label (center_text cv.Rect2d_default "Object"))
    (robot_box_fresh0 env) (object_box_fresh0 env)
    None [] None None.

Definition acquire_robot_box (robot_box : cv.Rect2d) (s : CompetitionState)
  : result CompetitionState :=
  match m_robot_loc_label s with
  | None => Fault NullLabel
  | Some l =>
      let s := with_robot_loc_label (Some (setText (center_text robot_box "Robot") l)) s in
      let s := with_impl (with_box_robot robot_box (m_impl s)) s in
      Ok (with_robot_box_fresh true s)
  end.

Definition acquire_object_box (object_box : cv.Rect2d) (s : CompetitionState)
  : result CompetitionState :=
  match m_object_loc_label s with
  | None => Fault NullLabel
  | Some l =>
      let s := with_object_loc_label (Some (setText (center_text object_box "Object") l)) s in
      let s := with_impl (with_box_object object_box (m_impl s)) s in
      Ok (with_object_box_fresh true s)
  end.

Definition acquire_target_box (target_box : cv.Rect2d) (s : CompetitionState)
  : CompetitionState :=
  with_impl (with_box_target target_box (m_impl s)) s.

Definition acquire_walls (walls : option wall_arr) (s : CompetitionState)
  : CompetitionState :=
  with_walls walls s.

Definition is_tracking_robot (s : CompetitionState) : bool :=
  m_tracking_object s.

Definition is_tracking_object (s : CompetitionState) : bool :=
  m_tracking_object s.

Definition object_type (s : CompetitionState) : Z :=
  m_object_type s.

Definition set_tracking_robot (tracking_robot : bool) (s : CompetitionState)
  : CompetitionState :=
  with_tracking_robot tracking_robot s.

Definition set_tracking_object (tracking_object : bool) (s : CompetitionState)
  : CompetitionState :=
  with_tracking_object tracking_object s.

Definition set_object_type (object_type : Z) (s : CompetitionState)
  : CompetitionState :=
  with_object_type object_type s.

(** The getters of a box return a reference to the stored rectangle;
    here, the rectangle and the state after the call. *)
Definition get_robot_box (consume : bool) (s : CompetitionState)
  : cv.Rect2d * CompetitionState :=
  let s := with_robot_box_fresh (m_robot_box_fresh s && negb consume) s in
  (box_robot (m_impl s), s).

Definition get_object_box (consume : bool) (s : CompetitionState)
  : cv.Rect2d * CompetitionState :=
  let s := with_object_box_fresh (m_object_box_fresh s && negb consume) s in
  (box_object (m_impl s), s).

Definition get_target_box (s : CompetitionState) : cv.Rect2d :=
  box_target (m_impl s).

Definition is_robot_box_fresh (s : CompetitionState) : bool :=
  m_robot_box_fresh s.

Definition is_object_box_fresh (s : CompetitionState) : bool :=
  m_object_box_fresh s.

Definition is_robot_box_valid (g_pm : ParamManager) (s : CompetitionState) : bool :=
  acquisition_r (box_robot (m_impl s)) (robot_calib_area g_pm)
  <? area_acq_r_sigma g_pm.

Definition is_object_box_valid (g_pm : ParamManager) (s : CompetitionState) : bool :=
  acquisition_r (box_object (m_impl s)) (object_calib_area g_pm)
  <? area_acq_r_sigma g_pm.

Definition clear_path (s : CompetitionState) : CompetitionState :=
  with_path [] s.

Definition append_path (x y : float) (s : CompetitionState) : CompetitionState :=
  with_path (m_path s ++ [(x, y)]) s.

Definition get_path (s : CompetitionState) : path2d :=
  m_path s.

Definition begin_traversal (s : CompetitionState) : CompetitionState :=
  with_procedure (Some (start (Procedure_new (m_path s)))) s.

Definition halt_traversal (s : CompetitionState) : result CompetitionState :=
  match m_procedure s with
  | None => Fault NullProcedure
  | Some p => Ok (with_procedure (Some (stop p)) s)
  end.

Definition begin_object_move (s : CompetitionState) : CompetitionState :=
  with_object_procedure (Some (start (Procedure_new (m_path s)))) s.

Definition halt_object_move (s : CompetitionState) : result CompetitionState :=
  match m_object_procedure s with
  | None => Fault NullProcedure
  | Some p => Ok (with_object_procedure (Some (stop p)) s)
  end.

(** ** Call sequences *)

(** The calls a client can make that change the state.  A getter of a
    box hands out a reference, through which the client may store a
    rectangle: [assign] is that store, when there is one.  The remaining
    member functions are [const] and leave the state as it is. *)
Inductive call : Set :=
| AcquireRobotBox (robot_box : cv.Rect2d)
| AcquireObjectBox (object_box : cv.Rect2d)
| AcquireTargetBox (target_box : cv.Rect2d)
| AcquireWalls (walls : option wall_arr)
| SetTrackingRobot (tracking_robot : bool)
| SetTrackingObject (tracking_object : bool)
| SetObjectType (object_type : Z)
| GetRobotBox (consume : bool) (assign : option cv.Rect2d)
| GetObjectBox (consume : bool) (assign : option cv.Rect2d)
| GetTargetBox (assign : option cv.Rect2d)
| ClearPath
| AppendPath (x y : float)
| BeginTraversal
| HaltTraversal
| BeginObjectMove
| HaltObjectMove.

(** A store through the reference a getter returned. *)
Definition store (set : cv.Rect2d -> Impl -> Impl) (assign : option cv.Rect2d)
    (s : CompetitionState) : CompetitionState :=
  match assign with
  | None => s
  | Some r => with_impl (set r (m_impl s)) s
  end.

Definition step (c : call) (s : CompetitionState) : result CompetitionState :=
  match c with
  | AcquireRobotBox r => acquire_robot_box r s
  | AcquireObjectBox r => acquire_object_box r s
  | AcquireTargetBox r => Ok (acquire_target_box r s)
  | AcquireWalls w => Ok (acquire_walls w s)
  | SetTrackingRobot b => Ok (set_tracking_robot b s)
  | SetTrackingObject b => Ok (set_tracking_object b s)
  | SetObjectType t => Ok (set_object_type t s)
  | GetRobotBox consume assign =>
      Ok (store with_box_robot assign (snd (get_robot_box consume s)))
  | GetObjectBox consume assign =>
      Ok (store with_box_object assign (snd (get_object_box consume s)))
  | GetTargetBox assign => Ok (store with_box_target assign s)
  | ClearPath => Ok (clear_path s)
  | AppendPath x y => Ok (append_path x y s)
  | BeginTraversal => Ok (begin_traversal s)
  | HaltTraversal => halt_traversal s
  | BeginObjectMove => Ok (begin_object_move s)
  | HaltObjectMove => halt_object_move s
  end.

(** The calls of a sequence in order, up to the first one that dies. *)
Fixpoint run (calls : list call) (s : CompetitionState) : result CompetitionState :=
  match calls with
  | [] => Ok s
  | c :: calls => bind (step c s) (run calls)
  end.

(** The value last passed to [set_tracking_object] in a sequence of
    calls, [b] when there is no such call. *)
Fixpoint last_tracking_object (calls : list call) (b : bool) : bool :=
  match calls with
  | [] => b
  | SetTrackingObject b' :: calls => last_tracking_object calls b'
  | _ :: calls => last_tracking_object calls b
  end.

Definition is_BeginTraversal (c : call) : bool :=
  match c with BeginTraversal => true | _ => false end.

Definition is_BeginObjectMove (c : call) : bool :=
  match c with BeginObjectMove => true | _ => false end.

(** [n] reads of a box in a row, each with the same [consume]. *)
Fixpoint get_robot_box_times (n : nat) (consume : bool) (s : CompetitionState)
  : CompetitionState :=
  match n with
  | O => s
  | S n => get_robot_box_times n consume (snd (get_robot_box consume s))
  end.

Fixpoint get_object_box_times (n : nat) (consume : bool) (s : CompetitionState)
  : CompetitionState :=
  match n with
  | O => s
  | S n => get_object_box_times n consume (snd (get_object_box consume s))
  end.

(** One [append_path] call per point of [pts], in the order of the list. *)
Fixpoint append_path_all (pts : list point2d) (s : CompetitionState)
  : CompetitionState :=
  match pts with
  | [] => s
  | (x, y) :: pts => append_path_all pts (append_path x y s)
  end.

(** Whether a procedure slot holds a procedure. *)
Definition has_procedure (s : CompetitionState) : bool :=
  match m_procedure s with Some _ => true | None => false end.

Definition has_object_procedure (s : CompetitionState) : bool :=
  match m_object_procedure s with Some _ => true | None => false end.

(** A state right after construction, the status box alive. *)
Definition fresh_state : CompetitionState :=
  CompetitionState_new (mkEnv true 0 false false).

(** ** Vocabulary of the further properties *)

(** A binary64 value that is a NaN or has the sign [s]. *)
Definition nan_or_sign (s : bool) (f : spec_float) : Prop :=
  f = S754_nan \/ has_sign s f.

(** A binary64 value above zero. *)
Definition positive_sf (f : spec_float) : Prop :=
  match f with
  | S754_infinity false | S754_finite false _ _ => True
  | _ => False
  end.

(** What the [const] member functions return: the three flags the
    accessors read, the three boxes, the two freshness flags and the
    path.  (The validity of a box is a function of the box.) *)
Definition observe (s : CompetitionState)
  : bool * bool * Z * cv.Rect2d * cv.Rect2d * cv.Rect2d * bool * bool * path2d :=
  (is_tracking_robot s, is_tracking_object s, object_type s,
   box_robot (m_impl s), box_object (m_impl s), get_target_box s,
   is_robot_box_fresh s, is_object_box_fresh s, get_path s).

Definition has_robot_label (s : CompetitionState) : bool :=
  match m_robot_loc_label s with Some _ => true | None => false end.

Definition has_object_label (s : CompetitionState) : bool :=
  match m_object_loc_label s with Some _ => true | None => false end.

(** Whether a sequence of calls runs to its end, from a state of which
    only this is known: whether the robot label, the object label, the
    traversal procedure and the object procedure are there. *)
Fixpoint survives (calls : list call) (rl ol tp op : bool) : bool :=
  match calls with
  | [] => true
  | AcquireRobotBox _ :: calls => rl && survives calls rl ol tp op
  | AcquireObjectBox _ :: calls => ol && survives calls rl ol tp op
  | BeginTraversal :: calls => survives calls rl ol true op
  | HaltTraversal :: calls => tp && survives calls rl ol tp op
  | BeginObjectMove :: calls => survives calls rl ol tp true
  | HaltObjectMove :: calls => op && survives calls rl ol tp op
  | _ :: calls => survives calls rl ol tp op
  end.

(** The calls that go through the robot box, and through the object
    box: its acquisition and its getter. *)
Definition robot_box_call (c : call) : bool :=
  match c with
  | AcquireRobotBox _ | GetRobotBox _ _ => true
  | _ => false
  end.

Definition object_box_call (c : call) : bool :=
  match c with
  | AcquireObjectBox _ | GetObjectBox _ _ => true
  | _ => false
  end.

(** The calls that store a rectangle through the reference a getter
    returned. *)
Definition stores_robot_box (c : call) : bool :=
  match c with
  | GetRobotBox _ (Some _) => true
  | _ => false
  end.

Definition stores_object_box (c : call) : bool :=
  match c with
  | GetObjectBox _ (Some _) => true
  | _ => false
  end.

Definition is_ClearPath (c : call) : bool :=
  match c with ClearPath => true | _ => false end.

(** The path after a sequence of calls, from the path before it. *)
Fixpoint path_after (calls : list call) (path : path2d) : path2d :=
  match calls with
  | [] => path
  | ClearPath :: calls => path_after calls []
  | AppendPath x y :: calls => path_after calls (path ++ [(x, y)])
  | _ :: calls => path_after calls path
  end.

(** The points a sequence of calls appends, in the order of the calls. *)
Fixpoint appended (calls : list call) : list point2d :=
  match calls with
  | [] => []
  | AppendPath x y :: calls => (x, y) :: appended calls
  | _ :: calls => appended calls
  end.

(** The values last passed to [set_object_type], [set_tracking_robot]
    and [acquire_walls] in a sequence of calls. *)
Fixpoint last_object_type (calls : list call) (t : Z) : Z :=
  match calls with
  | [] => t
  | SetObjectType t' :: calls => last_object_type calls t'
  | _ :: calls => last_object_type calls t
  end.

Fixpoint last_tracking_robot (calls : list call) (b : bool) : bool :=
  match calls with
  | [] => b
  | SetTrackingRobot b' :: calls => last_tracking_robot calls b'
  | _ :: calls => last_tracking_robot calls b
  end.

Fixpoint last_walls (calls : list call) (w : option wall_arr) : option wall_arr :=
  match calls with
  | [] => w
  | AcquireWalls w' :: calls => last_walls calls w'
  | _ :: calls => last_walls calls w
  end.

(** Two outcomes of a sequence of calls that a client cannot tell
    apart: the same fault, or two states with the same observations
    that differ at most in [m_tracking_robot]. *)
Definition same_outcome (r1 r2 : result CompetitionState) : Prop :=
  match r1, r2 with
  | Ok s1, Ok s2 =>
      with_tracking_robot false s1 = with_tracking_robot false s2
      /\ observe s1 = observe s2
  | Fault f1, Fault f2 => f1 = f2
  | _, _ => False
  end.

(** The members that belong to the robot box, to the object box, and
    all the others. *)
Definition robot_slot (s : CompetitionState)
  : cv.Rect2d * bool * option StatusLabel :=
  (box_robot (m_impl s), m_robot_box_fresh s, m_robot_loc_label s).

Definition object_slot (s : CompetitionState)
  : cv.Rect2d * bool * option StatusLabel :=
  (box_object (m_impl s), m_object_box_fresh s, m_object_loc_label s).

Definition shared_members (s : CompetitionState)
  : cv.Rect2d * bool * bool * bool * Z * option wall_arr * path2d
    * option Procedure * option ObjectProcedure :=
  (box_target (m_impl s), m_tracking_robot s, m_tracking_object s,
   m_acquire_walls s, m_object_type s, m_walls s, m_path s,
   m_procedure s, m_object_procedure s).

Definition outside_robot_slot (s : CompetitionState) :=
  (object_slot s, shared_members s).

Definition outside_object_slot (s : CompetitionState) :=
  (robot_slot s, shared_members s).

(** The label of a box shows the centre of the stored box. *)
Definition robot_label_shows_box (s : CompetitionState) : Prop :=
  m_robot_loc_label s
  = Some (mkLabel (center_text (box_robot (m_impl s)) "Robot")).

Definition object_label_shows_box (s : CompetitionState) : Prop :=
  m_object_loc_label s
  = Some (mkLabel (center_text (box_object (m_impl s)) "Object")).

(** The calls that acquire a box, and the reads that consume it. *)
Definition acquires_robot_box (c : call) : bool :=
  match c with AcquireRobotBox _ => true | _ => false end.

Definition acquires_object_box (c : call) : bool :=
  match c with AcquireObjectBox _ => true | _ => false end.

Definition consumes_robot_box (c : call) : bool :=
  match c with GetRobotBox true _ => true | _ => false end.

Definition consumes_object_box (c : call) : bool :=
  match c with GetObjectBox true _ => true | _ => false end.

(** * Properties *)

(** ** Binary64 arithmetic

    Facts about the operations of [SpecFloat] at the binary64 format,
    through which [FloatAxioms] specifies the primitive operations. *)

Module Binary64.

Lemma Prim2SF_0 : Prim2SF 0 = S754_zero false.
Proof. reflexivity. Qed.

Lemma Prim2SF_1 : Prim2SF 1 = S754_finite false 4503599627370496 (-52).
Proof. reflexivity. Qed.

Lemma Prim2SF_threshold :
  Prim2SF 0.99 = S754_finite false 8917127262193582 (-53).
Proof. reflexivity. Qed.

Lemma Prim2SF_infinity : Prim2SF infinity = S754_infinity false.
Proof. reflexivity. Qed.

(** *** Rounding keeps the sign *)

Lemma shr_1_nonneg mrs : (0 <= shr_m mrs)%Z -> (0 <= shr_m (shr_1 mrs))%Z.
Proof.
  destruct mrs as [m r s]; simpl.
  destruct m as [|[p|p|]|p]; simpl; lia.
Qed.

Lemma iter_pos_shr_1_nonneg p : forall mrs,
  (0 <= shr_m mrs)%Z -> (0 <= shr_m (iter_pos shr_1 p mrs))%Z.
Proof.
  induction p as [p IH|p IH|]; intros mrs H; simpl.
  - apply IH, IH, shr_1_nonneg, H.
  - apply IH, IH, H.
  - apply shr_1_nonneg, H.
Qed.

Lemma shr_fexp_nonneg m e l :
  (0 <= m)%Z -> (0 <= shr_m (fst (shr_fexp prec emax m e l)))%Z.
Proof.
  intros H. unfold shr_fexp, shr.
  assert (H0 : (0 <= shr_m (shr_record_of_loc m l))%Z)
    by (destruct l as [|[]]; exact H).
  destruct (_ - e)%Z; simpl; auto using iter_pos_shr_1_nonneg.
Qed.

Lemma round_nearest_even_nonneg m l :
  (0 <= m)%Z -> (0 <= round_nearest_even m l)%Z.
Proof.
  intros H. destruct l as [|[]]; simpl; try lia.
  destruct (Z.even m); lia.
Qed.

Lemma binary_round_aux_sign s m e l :
  (0 <= m)%Z -> has_sign s (binary_round_aux prec emax s m e l).
Proof.
  intros H. unfold binary_round_aux.
  pose proof (shr_fexp_nonneg m e l H) as H1.
  destruct (shr_fexp prec emax m e l) as [mrs' e']; simpl in H1.
  pose proof (shr_fexp_nonneg _ e' loc_Exact
                (round_nearest_even_nonneg _ (loc_of_shr_record mrs') H1)) as H2.
  destruct (shr_fexp prec emax _ e' loc_Exact) as [mrs'' e'']; simpl in H2.
  destruct (shr_m mrs''); simpl; try reflexivity; try lia.
  destruct (_ <=? _)%Z; reflexivity.
Qed.

Lemma SFdiv_core_binary_nonneg mx ex my ey :
  (0 <= fst (fst (SFdiv_core_binary prec emax (Zpos mx) ex (Zpos my) ey)))%Z.
Proof.
  unfold SFdiv_core_binary.
  set (s := (_ - _ - _)%Z).
  set (m' := match s with Zpos _ => _ | Z0 => _ | Zneg _ => _ end).
  assert (Hm : (0 <= m')%Z).
  { subst m'. destruct s; try lia. apply Z.shiftl_nonneg. lia. }
  pose proof (Z.div_pos m' (Zpos my) Hm ltac:(lia)) as Hq.
  unfold Z.div in Hq.
  destruct (Z.div_eucl m' (Zpos my)) as [q r]. exact Hq.
Qed.

Lemma SFdiv_finite_sign sx mx ex sy my ey :
  has_sign (xorb sx sy)
    (SF64div (S754_finite sx mx ex) (S754_finite sy my ey)).
Proof.
  unfold SF64div, SFdiv.
  pose proof (SFdiv_core_binary_nonneg mx ex my ey) as H.
  destruct (SFdiv_core_binary prec emax (Zpos mx) ex (Zpos my) ey)
    as [[mz ez] lz].
  apply binary_round_aux_sign, H.
Qed.

Lemma SFmul_finite_sign sx mx ex sy my ey :
  has_sign (xorb sx sy)
    (SF64mul (S754_finite sx mx ex) (S754_finite sy my ey)).
Proof. apply binary_round_aux_sign. lia. Qed.

Lemma SFmul_finite_inv a b s m e :
  SF64mul a b = S754_finite s m e ->
  exists sa ma ea sb mb eb,
    a = S754_finite sa ma ea /\ b = S754_finite sb mb eb.
Proof.
  destruct a as [sa|sa| |sa ma ea], b as [sb|sb| |sb mb eb]; simpl;
    try discriminate.
  intros _. repeat eexists.
Qed.

(** *** A value against itself *)

Lemma SFdiv_core_binary_self m e :
  SFdiv_core_binary prec emax (Zpos m) e (Zpos m) e
  = (9007199254740992, -53, loc_Exact)%Z.
Proof.
  unfold SFdiv_core_binary.
  rewrite !Z.sub_diag.
  change (Z.min (fexp prec emax 0) 0) with (-53)%Z.
  change (0 - -53)%Z with 53%Z.
  cbv iota.
  rewrite Z.shiftl_mul_pow2 by lia.
  pose proof (Z.div_eucl_eq (Zpos m * 2 ^ 53) (Zpos m) ltac:(lia)) as Heq.
  pose proof (Z.mod_pos_bound (Zpos m * 2 ^ 53) (Zpos m) ltac:(lia)) as Hb.
  unfold Z.modulo in Hb.
  destruct (Z.div_eucl (Zpos m * 2 ^ 53) (Zpos m)) as [q r].
  assert (Hq : q = (2 ^ 53)%Z) by nia.
  assert (Hr : r = 0%Z) by nia.
  subst q r.
  unfold new_location, new_location_even, new_location_odd.
  destruct (Z.even (Zpos m)); reflexivity.
Qed.

Lemma SFdiv_self s m e :
  SF64div (S754_finite s m e) (S754_finite s m e) = Prim2SF 1.
Proof.
  unfold SF64div, SFdiv. rewrite SFdiv_core_binary_self.
  rewrite xorb_nilpotent. reflexivity.
Qed.

Lemma SFsub_self s m e :
  SF64sub (S754_finite s m e) (S754_finite s m e) = S754_zero false.
Proof.
  unfold SF64sub, SFsub. rewrite Z.sub_diag. reflexivity.
Qed.

Lemma SFcompare_finite_refl s m e :
  SFcompare (S754_finite s m e) (S754_finite s m e) = Some Eq.
Proof.
  simpl. rewrite Z.compare_refl, Pos.compare_cont_refl.
  destruct s; reflexivity.
Qed.

(** *** Equality of doubles *)

Lemma SFeqb_finite_eq s1 m1 e1 f :
  SFeqb (S754_finite s1 m1 e1) f = true -> f = S754_finite s1 m1 e1.
Proof.
  unfold SFeqb.
  destruct f as [s|s| |s2 m2 e2]; simpl; try (destruct s1; discriminate).
  - destruct s1, s; discriminate.
  - destruct s1, s2; try discriminate;
      destruct (Z.compare_spec e1 e2); try discriminate; subst;
      change (Pos.compare_cont Eq m1 m2) with (Pos.compare m1 m2);
      destruct (Pos.compare_spec m1 m2); simpl; try discriminate;
      intros _; subst; reflexivity.
Qed.

Lemma SFeqb_eq_finite f s2 m2 e2 :
  SFeqb f (S754_finite s2 m2 e2) = true -> f = S754_finite s2 m2 e2.
Proof.
  destruct f as [s|s| |s1 m1 e1]; try (destruct s, s2; discriminate);
    try discriminate.
  intros H. apply SFeqb_finite_eq in H. congruence.
Qed.

Lemma SFeqb_zero_zero f s s' :
  SFeqb f (S754_zero s) = true -> SFeqb f (S754_zero s') = true.
Proof.
  destruct f as [z|z| |z m e]; try (destruct z; discriminate);
    try discriminate.
  reflexivity.
Qed.

End Binary64.

(** ** Doubles through their specification *)

Section Doubles.

Import Binary64.

Lemma negative_spec a :
  negative a = true ->
  (exists m e, Prim2SF a = S754_finite true m e)
  \/ Prim2SF a = S754_infinity true.
Proof.
  unfold negative. rewrite ltb_spec, Prim2SF_0.
  destruct (Prim2SF a) as [s|[]| |[] m e]; simpl; try discriminate; eauto.
Qed.

Lemma nonnegative_spec a :
  nonnegative a = true ->
  (exists s, Prim2SF a = S754_zero s)
  \/ (exists m e, Prim2SF a = S754_finite false m e)
  \/ Prim2SF a = S754_infinity false.
Proof.
  unfold nonnegative. rewrite leb_spec, Prim2SF_0.
  destruct (Prim2SF a) as [s|[]| |[] m e]; simpl; try discriminate; eauto.
Qed.

Lemma is_infinity_spec a :
  is_infinity a = true <-> exists s, Prim2SF a = S754_infinity s.
Proof.
  unfold is_infinity. rewrite eqb_spec, abs_spec, Prim2SF_infinity.
  destruct (Prim2SF a) as [s|s| |s m e]; simpl; split;
    try discriminate; try (intros [s' Hs']; discriminate); eauto.
Qed.

Lemma is_finite_spec a :
  is_finite a = true ->
  (exists s, Prim2SF a = S754_zero s)
  \/ (exists s m e, Prim2SF a = S754_finite s m e).
Proof.
  unfold is_finite, is_nan, is_infinity.
  rewrite !eqb_spec, abs_spec, Prim2SF_infinity.
  destruct (Prim2SF a) as [s|s| |s m e]; intros H.
  - left; eauto.
  - destruct s; discriminate.
  - discriminate.
  - right; eauto.
Qed.

Lemma ltb_irrefl_finite a s m e :
  Prim2SF a = S754_finite s m e -> (a <? a) = false.
Proof.
  intros Ha. rewrite ltb_spec, Ha. unfold SFltb.
  now rewrite SFcompare_finite_refl.
Qed.

Lemma ltb_strictly_less a b : (a <? b) = true <-> strictly_less a b.
Proof.
  unfold strictly_less. rewrite ltb_spec, compare_spec. unfold SFltb.
  destruct (SFcompare (Prim2SF a) (Prim2SF b)) as [[]|]; simpl;
    split; congruence.
Qed.

Lemma has_sign_true_leb_threshold f :
  has_sign true f -> SFleb f (Prim2SF 0.99) = true.
Proof.
  rewrite Prim2SF_threshold.
  destruct f as [s|s| |s m e]; simpl; intros H;
    try contradiction; subst; reflexivity.
Qed.

End Doubles.

(** ** The acquisition score *)

(** The side ratio of the specification is the [t] of the code. *)
Lemma side_ratio_code rect :
  side_ratio rect
  = if cv.height rect <? cv.width rect
    then cv.width rect / cv.height rect
    else cv.height rect / cv.width rect.
Proof.
  unfold side_ratio, fmax, fmin.
  destruct (cv.height rect <? cv.width rect); reflexivity.
Qed.

(** The code in the words of the specification: the two sentinels and
    the score. *)
Lemma acquisition_r_cases rect c :
  acquisition_r rect c
  = if rect_area rect =? 0 then 1000
    else if side_ratio rect <=? 0.99 then 1000
    else area_error_score (rect_area rect) c (side_ratio rect).
Proof.
  unfold acquisition_r, area_error_score, fmax.
  rewrite side_ratio_code. reflexivity.
Qed.

Lemma acquisition_r_rejects rect c :
  (side_ratio rect <=? 0.99) = true -> acquisition_r rect c = 1000.
Proof.
  intros H. rewrite acquisition_r_cases, H.
  destruct (_ =? 0); reflexivity.
Qed.

(** With one side negative and the other one not, the side ratio is a
    negative number or a zero, unless both sides are infinite. *)
Lemma mixed_sign_ratio rect :
  one_side_negative rect = true ->
  both_sides_infinite rect = false ->
  (side_ratio rect <=? 0.99) = true.
Proof.
  destruct rect as [x y w h].
  unfold one_side_negative, both_sides_infinite. simpl. intros Hs Hinf.
  assert (Hni : ~ ((exists s, Prim2SF w = S754_infinity s) /\
                   (exists s, Prim2SF h = S754_infinity s))).
  { intros [Hw Hh]. apply is_infinity_spec in Hw, Hh.
    rewrite Hw, Hh in Hinf. discriminate. }
  rewrite side_ratio_code; simpl.
  rewrite ltb_spec.
  apply orb_true_iff in Hs.
  destruct Hs as [Hs|Hs]; apply andb_true_iff in Hs; destruct Hs as [Hn Hp];
    apply negative_spec in Hn; apply nonnegative_spec in Hp;
    destruct Hn as [(mn & en & Hn)|Hn];
    destruct Hp as [[sp Hp]|[(mp & ep & Hp)|Hp]];
    rewrite Hn, Hp in *; simpl;
    rewrite leb_spec, div_spec, Hn, Hp;
    try (exfalso; apply Hni; split; eauto; fail);
    first [ destruct sp; reflexivity
          | apply has_sign_true_leb_threshold;
            first [ exact (Binary64.SFdiv_finite_sign _ _ _ _ _ _)
                  | reflexivity ] ].
Qed.

(** A square whose area is the calibrated area scores zero. *)
Lemma acquisition_r_calibrated_square rect c :
  (cv.width rect =? cv.height rect) = true ->
  (rect_area rect =? c) = true ->
  (rect_area rect =? 0) = false ->
  is_finite c = true ->
  acquisition_r rect c = 0.
Proof.
  destruct rect as [x y w h]; unfold rect_area; simpl.
  intros Hwh Hac Ha0 Hfin.
  rewrite eqb_spec in Hwh, Hac, Ha0. rewrite mul_spec in Hac, Ha0.
  rewrite Binary64.Prim2SF_0 in Ha0.
  apply is_finite_spec in Hfin.
  destruct Hfin as [[s Hc]|(sc & mc & ec & Hc)].
  { rewrite Hc in Hac.
    rewrite (Binary64.SFeqb_zero_zero _ _ false Hac) in Ha0. discriminate. }
  rewrite Hc in Hac. apply Binary64.SFeqb_eq_finite in Hac.
  destruct (Binary64.SFmul_finite_inv _ _ _ _ _ Hac)
    as (sw & mw & ew & sh & mh & eh & Hw & Hh).
  rewrite Hw, Hh in Hwh. apply Binary64.SFeqb_finite_eq in Hwh.
  injection Hwh as -> -> ->.
  assert (Ehw : h = w) by (apply Prim2SF_inj; congruence). subst h.
  assert (Earea : w * w = c)
    by (apply Prim2SF_inj; rewrite mul_spec; congruence).
  assert (Hsc : sc = false).
  { pose proof (Binary64.SFmul_finite_sign sw mw ew sw mw ew) as Hs.
    rewrite <- Hw, Hac, xorb_nilpotent in Hs. exact Hs. }
  subst sc.
  assert (Et : w / w = 1).
  { apply Prim2SF_inj. rewrite div_spec, Hw. apply Binary64.SFdiv_self. }
  assert (Esub : c - c = 0).
  { apply Prim2SF_inj. rewrite sub_spec, Hc. apply Binary64.SFsub_self. }
  assert (Ediv : 0 / c = 0).
  { apply Prim2SF_inj. rewrite div_spec, Hc. reflexivity. }
  unfold acquisition_r; simpl.
  rewrite Earea, (ltb_irrefl_finite w _ _ _ Hw), (ltb_irrefl_finite c _ _ _ Hc).
  rewrite Et, Esub.
  rewrite eqb_spec, Hc, Binary64.Prim2SF_0.
  replace (SFeqb (S754_finite false mc ec) (S754_zero false)) with false
    by reflexivity.
  change (1 <=? 0.99) with false. cbv iota.
  change (abs 0) with 0. rewrite Ediv. reflexivity.
Qed.

(** Scenarios of the specification: a calibrated square and a
    rectangle without area. *)
Example acquisition_r_square_10 :
  acquisition_r (cv.mkRect2d 0 0 10 10) 100 = 0.
Proof. reflexivity. Qed.

Example acquisition_r_flat :
  acquisition_r (cv.mkRect2d 0 0 0 5) 100 = 1000.
Proof. reflexivity. Qed.

(** C1, as the code has it: for the rectangle [{0, 0, 20, 5}] and the
    calibrated area 100 the area is 100 and the side ratio is 4, which
    is above 0.99, so the squareness check passes and [acquisition_r]
    returns exactly 0, the area being the calibrated one. *)
Theorem acquisition_r_wide_rectangle :
  rect_area (cv.mkRect2d 0 0 20 5) = 100
  /\ side_ratio (cv.mkRect2d 0 0 20 5) = 4
  /\ (side_ratio (cv.mkRect2d 0 0 20 5) <=? 0.99) = false
  /\ acquisition_r (cv.mkRect2d 0 0 20 5) 100 = 0.
Proof. repeat split; reflexivity. Qed.

(** C1 as stated fails: the score of [{0, 0, 20, 5}] against 100 is not
    the sentinel 1000. *)
Lemma acquisition_r_wide_rectangle_not_1000 :
  (acquisition_r (cv.mkRect2d 0 0 20 5) 100 =? 1000) = false.
Proof. reflexivity. Qed.

(** C2: whenever [rect.width * rect.height] is zero (either zero of the
    doubles), [acquisition_r] returns exactly 1000, whatever the
    calibrated area. *)
Theorem acquisition_r_zero_area (rect : cv.Rect2d) (calibrated_area : float) :
  (rect_area rect =? 0) = true ->
  acquisition_r rect calibrated_area = 1000.
Proof.
  intros H. rewrite acquisition_r_cases, H. reflexivity.
Qed.

Lemma acquisition_r_zero_area_witness :
  acquisition_r (cv.mkRect2d 0 0 0 5) 100 = 1000.
Proof.
  apply (acquisition_r_zero_area (cv.mkRect2d 0 0 0 5) 100). reflexivity.
Defined.

(** C3, as the code has it: for a rectangle with nonzero area that
    passes the squareness check, [acquisition_r] returns
    [|area - calibrated_area| / max(area, calibrated_area) * t], [t]
    being the side ratio; and for a rectangle with [width == height]
    whose area, as the code computes it, is a finite calibrated area and
    is not zero, it returns exactly 0. *)
Theorem acquisition_r_area_error :
  (forall rect calibrated_area,
      (rect_area rect =? 0) = false ->
      (side_ratio rect <=? 0.99) = false ->
      acquisition_r rect calibrated_area
      = area_error_score (rect_area rect) calibrated_area (side_ratio rect))
  /\ (forall rect calibrated_area,
      (cv.width rect =? cv.height rect) = true ->
      (rect_area rect =? calibrated_area) = true ->
      (rect_area rect =? 0) = false ->
      is_finite calibrated_area = true ->
      acquisition_r rect calibrated_area = 0).
Proof.
  split.
  - intros rect c Ha Ht. rewrite acquisition_r_cases, Ha, Ht. reflexivity.
  - exact acquisition_r_calibrated_square.
Qed.

Lemma acquisition_r_area_error_witness :
  acquisition_r (cv.mkRect2d 0 0 20 10) 100
  = area_error_score 200 100 2
  /\ acquisition_r (cv.mkRect2d 3 4 1.5 1.5) 2.25 = 0.
Proof.
  split.
  - apply (proj1 acquisition_r_area_error (cv.mkRect2d 0 0 20 10) 100);
      reflexivity.
  - apply (proj2 acquisition_r_area_error (cv.mkRect2d 3 4 1.5 1.5) 2.25);
      reflexivity.
Defined.

(** C3 as stated fails: with [width == height == sqrt(2.0)] and the
    calibrated area 2 the area is not zero and the squareness check
    passes, but the product of the sides is the double above 2 and the
    score is positive, not 0. *)
Lemma acquisition_r_sqrt_2_not_0 :
  cv.width (cv.mkRect2d 0 0 (sqrt 2) (sqrt 2)) = sqrt 2
  /\ cv.height (cv.mkRect2d 0 0 (sqrt 2) (sqrt 2)) = sqrt 2
  /\ (rect_area (cv.mkRect2d 0 0 (sqrt 2) (sqrt 2)) =? 0) = false
  /\ (side_ratio (cv.mkRect2d 0 0 (sqrt 2) (sqrt 2)) <=? 0.99) = false
  /\ (2 <? rect_area (cv.mkRect2d 0 0 (sqrt 2) (sqrt 2))) = true
  /\ (acquisition_r (cv.mkRect2d 0 0 (sqrt 2) (sqrt 2)) 2 =? 0) = false
  /\ (0 <? acquisition_r (cv.mkRect2d 0 0 (sqrt 2) (sqrt 2)) 2) = true.
Proof. repeat split; reflexivity. Qed.

(** The same at infinity: an infinite square against an infinite
    calibrated area has no score at all. *)
Example acquisition_r_infinite_square :
  sqrt infinity = infinity
  /\ acquisition_r (cv.mkRect2d 0 0 infinity infinity) infinity = nan.
Proof. split; reflexivity. Qed.

(** C5: a stored box is valid exactly when its acquisition score against
    the calibrated area of its kind is strictly less than
    [area_acq_r_sigma], for the robot box and for the object box. *)
Theorem box_valid_iff (g_pm : ParamManager) (s : CompetitionState) :
  (is_robot_box_valid g_pm s = true <->
   strictly_less
     (acquisition_r (box_robot (m_impl s)) (robot_calib_area g_pm))
     (area_acq_r_sigma g_pm))
  /\ (is_object_box_valid g_pm s = true <->
      strictly_less
        (acquisition_r (box_object (m_impl s)) (object_calib_area g_pm))
        (area_acq_r_sigma g_pm)).
Proof.
  split; apply ltb_strictly_less.
Qed.

(** The robot box stored at construction has no area and scores 1000:
    it is not valid for the threshold 0.5 and it is valid for 2000; the
    calibrated square scores below 0.5. *)
Example is_robot_box_valid_square :
  is_robot_box_valid (mkParams 100 100 0.5) fresh_state = false
  /\ is_robot_box_valid (mkParams 100 100 2000) fresh_state = true
  /\ (acquisition_r (cv.mkRect2d 0 0 10 10) 100 <? 0.5) = true.
Proof. repeat split; reflexivity. Qed.

(** C10, as the code has it: when one of width and height is negative
    and the other one is zero or positive, and the two are not both
    infinite, the side ratio is at most 0.99 (it is negative or a zero)
    and [acquisition_r] returns exactly 1000 for every calibrated
    area. *)
Theorem acquisition_r_one_side_negative
    (rect : cv.Rect2d) (calibrated_area : float) :
  one_side_negative rect = true ->
  both_sides_infinite rect = false ->
  (side_ratio rect <=? 0.99) = true
  /\ acquisition_r rect calibrated_area = 1000.
Proof.
  intros Hs Hinf.
  pose proof (mixed_sign_ratio rect Hs Hinf) as Ht.
  split; [exact Ht | apply acquisition_r_rejects, Ht].
Qed.

Lemma acquisition_r_one_side_negative_witness :
  (side_ratio (cv.mkRect2d 0 0 (-20) 5) <=? 0.99) = true
  /\ acquisition_r (cv.mkRect2d 0 0 (-20) 5) 100 = 1000.
Proof.
  apply (acquisition_r_one_side_negative (cv.mkRect2d 0 0 (-20) 5) 100);
    reflexivity.
Defined.

(** C10 as stated fails: with the width minus infinity and the height
    plus infinity exactly one side is negative and the product is not
    zero, but the side ratio is a NaN, the check [t <= 0.99] does not
    hold and the result is a NaN, not 1000. *)
Lemma acquisition_r_infinite_sides_not_1000 :
  one_side_negative (cv.mkRect2d 0 0 neg_infinity infinity) = true
  /\ (rect_area (cv.mkRect2d 0 0 neg_infinity infinity) =? 0) = false
  /\ side_ratio (cv.mkRect2d 0 0 neg_infinity infinity) = nan
  /\ acquisition_r (cv.mkRect2d 0 0 neg_infinity infinity) 100 = nan
  /\ (acquisition_r (cv.mkRect2d 0 0 neg_infinity infinity) 100 =? 1000) = false.
Proof. repeat split; reflexivity. Qed.

(** What the product being zero does not need: a side that is zero. *)
Example acquisition_r_underflow :
  one_side_negative (cv.mkRect2d 0 0 (-1e-200) 1e-200) = true
  /\ (rect_area (cv.mkRect2d 0 0 (-1e-200) 1e-200) =? 0) = true
  /\ acquisition_r (cv.mkRect2d 0 0 (-1e-200) 1e-200) 100 = 1000.
Proof. repeat split; reflexivity. Qed.

(** ** The box store *)

Lemma get_robot_box_fresh consume s :
  is_robot_box_fresh (snd (get_robot_box consume s))
  = is_robot_box_fresh s && negb consume.
Proof. reflexivity. Qed.

Lemma get_object_box_fresh consume s :
  is_object_box_fresh (snd (get_object_box consume s))
  = is_object_box_fresh s && negb consume.
Proof. reflexivity. Qed.

Lemma get_robot_box_times_fresh n : forall s,
  is_robot_box_fresh (get_robot_box_times n false s) = is_robot_box_fresh s.
Proof.
  induction n as [|n IH]; intros s; cbn [get_robot_box_times].
  - reflexivity.
  - rewrite IH, get_robot_box_fresh. apply andb_true_r.
Qed.

Lemma get_object_box_times_fresh n : forall s,
  is_object_box_fresh (get_object_box_times n false s) = is_object_box_fresh s.
Proof.
  induction n as [|n IH]; intros s; cbn [get_object_box_times].
  - reflexivity.
  - rewrite IH, get_object_box_fresh. apply andb_true_r.
Qed.

Lemma acquire_robot_box_ok r s :
  m_robot_loc_label s <> None ->
  exists s', acquire_robot_box r s = Ok s'
             /\ is_robot_box_fresh s' = true
             /\ fst (get_robot_box false s') = r.
Proof.
  unfold acquire_robot_box. destruct (m_robot_loc_label s) as [l|].
  - intros _. eexists. repeat split.
  - intros H. now contradiction H.
Qed.

Lemma acquire_object_box_ok r s :
  m_object_loc_label s <> None ->
  exists s', acquire_object_box r s = Ok s'
             /\ is_object_box_fresh s' = true
             /\ fst (get_object_box false s') = r.
Proof.
  unfold acquire_object_box. destruct (m_object_loc_label s) as [l|].
  - intros _. eexists. repeat split.
  - intros H. now contradiction H.
Qed.

(** Without a label the call dies and nothing is acquired. *)
Example acquire_robot_box_no_label :
  acquire_robot_box (cv.mkRect2d 1 2 3 4)
    (CompetitionState_new (mkEnv false 0 false false))
  = Fault NullLabel.
Proof. reflexivity. Qed.

(** C8: [acquire_target_box] stores the rectangle as the target box and
    changes nothing else: not the robot box, the object box, the two
    freshness flags, the path and the tracking flags, and not the two
    labels, whose text stays as it was; nor any other member. *)
Theorem acquire_target_box_frame (s : CompetitionState) (r : cv.Rect2d) :
  get_target_box (acquire_target_box r s) = r
  /\ box_robot (m_impl (acquire_target_box r s)) = box_robot (m_impl s)
  /\ box_object (m_impl (acquire_target_box r s)) = box_object (m_impl s)
  /\ is_robot_box_fresh (acquire_target_box r s) = is_robot_box_fresh s
  /\ is_object_box_fresh (acquire_target_box r s) = is_object_box_fresh s
  /\ get_path (acquire_target_box r s) = get_path s
  /\ m_tracking_robot (acquire_target_box r s) = m_tracking_robot s
  /\ m_tracking_object (acquire_target_box r s) = m_tracking_object s
  /\ m_robot_loc_label (acquire_target_box r s) = m_robot_loc_label s
  /\ m_object_loc_label (acquire_target_box r s) = m_object_loc_label s
  /\ m_acquire_walls (acquire_target_box r s) = m_acquire_walls s
  /\ m_object_type (acquire_target_box r s) = m_object_type s
  /\ m_walls (acquire_target_box r s) = m_walls s
  /\ m_procedure (acquire_target_box r s) = m_procedure s
  /\ m_object_procedure (acquire_target_box r s) = m_object_procedure s.
Proof. repeat split. Qed.

(** ** The path *)

Lemma append_path_all_path pts : forall s,
  get_path (append_path_all pts s) = get_path s ++ pts.
Proof.
  induction pts as [|[x y] pts IH]; intros s; cbn [append_path_all].
  - symmetry. apply app_nil_r.
  - rewrite IH. unfold get_path, append_path. simpl.
    rewrite <- app_assoc. reflexivity.
Qed.

(** C7: after [clear_path] the path is empty, and one [append_path] call
    per point of any list of points after a [clear_path] gives exactly
    these points, as many and in the order of the calls. *)
Theorem path_clear_append (s : CompetitionState) (pts : list point2d) :
  get_path (clear_path s) = []
  /\ get_path (append_path_all pts (clear_path s)) = pts
  /\ List.length (get_path (append_path_all pts (clear_path s)))
     = List.length pts.
Proof.
  assert (E : get_path (append_path_all pts (clear_path s)) = pts)
    by (rewrite append_path_all_path; reflexivity).
  rewrite E. repeat split.
Qed.

Example path_of_three :
  get_path (append_path_all [(1, 2); (3, 4); (1, 2)] (clear_path fresh_state))
  = [(1, 2); (3, 4); (1, 2)].
Proof. reflexivity. Qed.

(** ** Call sequences *)

(** Case analysis for one call: the call itself, then the slots and the
    optional store it tests. *)
Ltac step_cases c :=
  destruct c; cbn [step];
  unfold acquire_robot_box, acquire_object_box, halt_traversal,
    halt_object_move, store;
  repeat match goal with
         | |- context [match ?x with _ => _ end] => destruct x eqn:?
         end;
  let H := fresh "H" in
  intros H; try discriminate H; injection H as <-;
  unfold has_procedure, has_object_procedure; simpl;
  repeat match goal with
         | E : ?x = _ |- context [?x] => rewrite E
         end;
  repeat match goal with
         | |- context [match ?x with _ => _ end] => destruct x
         end.

Lemma step_tracking_object c s s' :
  step c s = Ok s' ->
  m_tracking_object s' = last_tracking_object [c] (m_tracking_object s).
Proof. step_cases c; reflexivity. Qed.

Lemma step_has_procedure c s s' :
  step c s = Ok s' ->
  has_procedure s' = has_procedure s || is_BeginTraversal c.
Proof. step_cases c; reflexivity. Qed.

Lemma step_has_object_procedure c s s' :
  step c s = Ok s' ->
  has_object_procedure s' = has_object_procedure s || is_BeginObjectMove c.
Proof. step_cases c; reflexivity. Qed.

Lemma last_tracking_object_cons c calls b :
  last_tracking_object (c :: calls) b
  = last_tracking_object calls (last_tracking_object [c] b).
Proof. destruct c; reflexivity. Qed.

Lemma run_cons_inv c calls s s' :
  run (c :: calls) s = Ok s' ->
  exists s1, step c s = Ok s1 /\ run calls s1 = Ok s'.
Proof.
  cbn [run]. destruct (step c s) as [s1|f]; simpl; intros H.
  - exists s1. split; [reflexivity | exact H].
  - discriminate.
Qed.

Lemma run_tracking_object calls : forall s s',
  run calls s = Ok s' ->
  m_tracking_object s' = last_tracking_object calls (m_tracking_object s).
Proof.
  induction calls as [|c calls IH]; intros s s' H.
  - injection H as <-. reflexivity.
  - apply run_cons_inv in H. destruct H as (s1 & H1 & H2).
    rewrite last_tracking_object_cons, <- (step_tracking_object _ _ _ H1).
    apply IH, H2.
Qed.

Lemma run_has_procedure calls : forall s s',
  run calls s = Ok s' ->
  has_procedure s' = has_procedure s || existsb is_BeginTraversal calls.
Proof.
  induction calls as [|c calls IH]; intros s s' H.
  - injection H as <-. simpl. now rewrite orb_false_r.
  - apply run_cons_inv in H. destruct H as (s1 & H1 & H2).
    rewrite (IH _ _ H2), (step_has_procedure _ _ _ H1). simpl.
    now rewrite orb_assoc.
Qed.

Lemma run_has_object_procedure calls : forall s s',
  run calls s = Ok s' ->
  has_object_procedure s'
  = has_object_procedure s || existsb is_BeginObjectMove calls.
Proof.
  induction calls as [|c calls IH]; intros s s' H.
  - injection H as <-. simpl. now rewrite orb_false_r.
  - apply run_cons_inv in H. destruct H as (s1 & H1 & H2).
    rewrite (IH _ _ H2), (step_has_object_procedure _ _ _ H1). simpl.
    now rewrite orb_assoc.
Qed.

Lemma existsb_BeginTraversal calls :
  existsb is_BeginTraversal calls = true <-> In BeginTraversal calls.
Proof.
  rewrite existsb_exists. split.
  - intros (c & Hin & Hc). destruct c; try discriminate. exact Hin.
  - intros H. exists BeginTraversal. split; [exact H | reflexivity].
Qed.

Lemma existsb_BeginObjectMove calls :
  existsb is_BeginObjectMove calls = true <-> In BeginObjectMove calls.
Proof.
  rewrite existsb_exists. split.
  - intros (c & Hin & Hc). destruct c; try discriminate. exact Hin.
  - intros H. exists BeginObjectMove. split; [exact H | reflexivity].
Qed.

Lemma halt_traversal_has_procedure s :
  (has_procedure s = true -> exists s', halt_traversal s = Ok s')
  /\ (has_procedure s = false -> halt_traversal s = Fault NullProcedure).
Proof.
  unfold has_procedure, halt_traversal.
  destruct (m_procedure s); split; intros H; try discriminate; eauto.
Qed.

Lemma halt_object_move_has_procedure s :
  (has_object_procedure s = true -> exists s', halt_object_move s = Ok s')
  /\ (has_object_procedure s = false ->
      halt_object_move s = Fault NullProcedure).
Proof.
  unfold has_object_procedure, halt_object_move.
  destruct (m_object_procedure s); split; intros H; try discriminate; eauto.
Qed.

(** C6: in every state reached from the constructor by a sequence of
    calls, [is_tracking_robot] returns the object-tracking flag, which
    is the value last passed to [set_tracking_object] ([false] when
    there was no such call); [set_tracking_robot] does not change what
    it returns. *)
Theorem is_tracking_robot_object_flag
    (env : Environment) (calls : list call) (s : CompetitionState) :
  run calls (CompetitionState_new env) = Ok s ->
  is_tracking_robot s = last_tracking_object calls false
  /\ is_tracking_robot s = is_tracking_object s
  /\ (forall b, is_tracking_robot (set_tracking_robot b s) = is_tracking_robot s)
  /\ (forall b, is_tracking_robot (set_tracking_object b s) = b).
Proof.
  intros H. apply run_tracking_object in H.
  split; [exact H | repeat split].
Qed.

Lemma is_tracking_robot_object_flag_witness :
  is_tracking_robot
    (set_tracking_robot true (set_tracking_object false fresh_state))
  = last_tracking_object [SetTrackingObject false; SetTrackingRobot true] false
  /\ is_tracking_robot
       (set_tracking_robot true (set_tracking_object false fresh_state))
     = is_tracking_object
         (set_tracking_robot true (set_tracking_object false fresh_state))
  /\ (forall b,
        is_tracking_robot
          (set_tracking_robot b
             (set_tracking_robot true (set_tracking_object false fresh_state)))
        = is_tracking_robot
            (set_tracking_robot true (set_tracking_object false fresh_state)))
  /\ (forall b,
        is_tracking_robot
          (set_tracking_object b
             (set_tracking_robot true (set_tracking_object false fresh_state)))
        = b).
Proof.
  apply (is_tracking_robot_object_flag (mkEnv true 0 false false)
           [SetTrackingObject false; SetTrackingRobot true]).
  reflexivity.
Defined.

(** The robot flag is set and [is_tracking_robot] still says no. *)
Example is_tracking_robot_after_set_tracking_robot :
  m_tracking_robot (set_tracking_robot true fresh_state) = true
  /\ is_tracking_robot (set_tracking_robot true fresh_state) = false.
Proof. split; reflexivity. Qed.

(** C9: in a state reached from the constructor by a sequence of calls,
    [halt_traversal] returns when [begin_traversal] is among the calls
    and dies of the null slot when it is not; the same for
    [halt_object_move] and [begin_object_move]. *)
Theorem halt_needs_begin
    (env : Environment) (calls : list call) (s : CompetitionState) :
  run calls (CompetitionState_new env) = Ok s ->
  (In BeginTraversal calls -> exists s', halt_traversal s = Ok s')
  /\ (~ In BeginTraversal calls -> halt_traversal s = Fault NullProcedure)
  /\ (In BeginObjectMove calls -> exists s', halt_object_move s = Ok s')
  /\ (~ In BeginObjectMove calls -> halt_object_move s = Fault NullProcedure).
Proof.
  intros H.
  pose proof (run_has_procedure _ _ _ H) as Hp.
  pose proof (run_has_object_procedure _ _ _ H) as Ho.
  simpl in Hp, Ho.
  destruct (halt_traversal_has_procedure s) as [Pt Pf].
  destruct (halt_object_move_has_procedure s) as [Ot Of].
  repeat split.
  - intros Hin. apply Pt. rewrite Hp. now apply existsb_BeginTraversal.
  - intros Hin. apply Pf. rewrite Hp.
    destruct (existsb is_BeginTraversal calls) eqn:E; [|reflexivity].
    now apply existsb_BeginTraversal in E.
  - intros Hin. apply Ot. rewrite Ho. now apply existsb_BeginObjectMove.
  - intros Hin. apply Of. rewrite Ho.
    destruct (existsb is_BeginObjectMove calls) eqn:E; [|reflexivity].
    now apply existsb_BeginObjectMove in E.
Qed.

Lemma halt_needs_begin_witness :
  (In BeginTraversal [AppendPath 1 2; BeginTraversal] ->
   exists s',
     halt_traversal (begin_traversal (append_path 1 2 fresh_state)) = Ok s')
  /\ (~ In BeginTraversal [AppendPath 1 2; BeginTraversal] ->
      halt_traversal (begin_traversal (append_path 1 2 fresh_state))
      = Fault NullProcedure)
  /\ (In BeginObjectMove [AppendPath 1 2; BeginTraversal] ->
      exists s',
        halt_object_move (begin_traversal (append_path 1 2 fresh_state))
        = Ok s')
  /\ (~ In BeginObjectMove [AppendPath 1 2; BeginTraversal] ->
      halt_object_move (begin_traversal (append_path 1 2 fresh_state))
      = Fault NullProcedure).
Proof.
  apply (halt_needs_begin (mkEnv true 0 false false)
           [AppendPath 1 2; BeginTraversal]).
  reflexivity.
Defined.

(** Right after construction both slots are empty; a traversal that was
    begun can be halted and begun again. *)
Example halt_traversal_first :
  halt_traversal fresh_state = Fault NullProcedure
  /\ halt_object_move fresh_state = Fault NullProcedure.
Proof. split; reflexivity. Qed.

Example begin_halt_begin :
  run [BeginTraversal; HaltTraversal; BeginTraversal; HaltTraversal] fresh_state
  = Ok (with_procedure (Some (mkProcedure [] false)) fresh_state).
Proof. reflexivity. Qed.

(** * Further properties *)

(** ** Signs and order of binary64 values *)

Module Binary64Sign.

Lemma SFmul_sign sx sy a b :
  has_sign sx a -> has_sign sy b -> nan_or_sign (xorb sx sy) (SF64mul a b).
Proof.
  destruct a as [s|s| |s m e], b as [s'|s'| |s' m' e']; simpl;
    intros Ha Hb; try contradiction; subst;
    try (left; reflexivity); try (right; reflexivity).
  right. apply Binary64.SFmul_finite_sign.
Qed.

Lemma SFdiv_sign sx sy a b :
  has_sign sx a -> has_sign sy b -> nan_or_sign (xorb sx sy) (SF64div a b).
Proof.
  destruct a as [s|s| |s m e], b as [s'|s'| |s' m' e']; simpl;
    intros Ha Hb; try contradiction; subst;
    try (left; reflexivity); try (right; reflexivity).
  right. apply Binary64.SFdiv_finite_sign.
Qed.

Lemma has_sign_or_nan f : f = S754_nan \/ exists s, has_sign s f.
Proof. destruct f as [s|s| |s m e]; simpl; eauto. Qed.

Lemma has_sign_inj s s' f : has_sign s f -> has_sign s' f -> s = s'.
Proof. destruct f; simpl; congruence || contradiction. Qed.

Lemma SFdiv_nan_r a : SF64div a S754_nan = S754_nan.
Proof. destruct a; reflexivity. Qed.

Lemma SFmul_nan_r a : SF64mul a S754_nan = S754_nan.
Proof. destruct a; reflexivity. Qed.

Lemma SFsub_nan_r a : SF64sub a S754_nan = S754_nan.
Proof. destruct a; reflexivity. Qed.

(** A quotient with a sign comes from operands with signs, and a
    quotient that is not negative from operands of one sign. *)
Lemma SFdiv_sign_inv a b :
  has_sign false (SF64div a b) ->
  exists s, has_sign s a /\ has_sign s b.
Proof.
  destruct (has_sign_or_nan a) as [->|[sa Ha]]; [intros []|].
  destruct (has_sign_or_nan b) as [->|[sb Hb]];
    [rewrite SFdiv_nan_r; intros []|].
  intros H. destruct (SFdiv_sign sa sb a b Ha Hb) as [E|E].
  - rewrite E in H. destruct H.
  - pose proof (has_sign_inj _ _ _ H E) as Hx.
    destruct sa, sb; try discriminate; eauto.
Qed.

Lemma SFabs_sign a : nan_or_sign false (SFabs a).
Proof. destruct a; simpl; [right|right|left|right]; reflexivity. Qed.

Lemma above_threshold_sign f :
  SFleb f (Prim2SF 0.99) = false -> nan_or_sign false f.
Proof.
  rewrite Binary64.Prim2SF_threshold.
  destruct f as [s|[]| |[] m e]; simpl; intros H;
    try discriminate; try (left; reflexivity); right; reflexivity.
Qed.

Lemma not_below_positive c a :
  positive_sf a -> SFltb c a = false -> nan_or_sign false c.
Proof.
  destruct a as [s|[]| |[] m e]; simpl; try contradiction; intros _;
  destruct c as [s'|[]| |[] m' e']; unfold SFltb; simpl; intros H;
    try discriminate; try (left; reflexivity); right; reflexivity.
Qed.

Lemma nonzero_sign_positive a :
  has_sign false a -> SFeqb a (S754_zero false) = false -> positive_sf a.
Proof.
  destruct a as [s|[]| |[] m e]; simpl; intros H H0;
    try discriminate; try contradiction; exact I.
Qed.

Lemma positive_sf_sign a : positive_sf a -> has_sign false a.
Proof.
  destruct a as [s|[]| |[] m e]; simpl; try contradiction; reflexivity.
Qed.

Lemma nan_or_sign_not_negative f :
  nan_or_sign false f -> SFltb f (S754_zero false) = false.
Proof.
  intros [->|H]; [reflexivity|].
  destruct f as [s|s| |s m e]; simpl in H; try contradiction; subst;
    reflexivity.
Qed.

Lemma nan_or_sign_nan_or_nonnegative f :
  nan_or_sign false f ->
  SFeqb f f = false \/ SFleb (S754_zero false) f = true.
Proof.
  intros [->|H]; [left; reflexivity|].
  destruct f as [s|s| |s m e]; simpl in H; try contradiction; subst;
    right; reflexivity.
Qed.

(** What is above a value that is not negative is above zero. *)
Lemma below_is_positive f g :
  nan_or_sign false f -> SFltb f g = true -> SFltb (S754_zero false) g = true.
Proof.
  intros [->|H]; [discriminate|].
  destruct f as [s|s| |s m e]; simpl in H; try contradiction; subst;
    destruct g as [s'|[]| |[] m' e']; unfold SFltb; simpl;
    try discriminate; reflexivity.
Qed.

Ltac order_cases :=
  repeat match goal with
         | |- context [Z.compare ?a ?b] => destruct (Z.compare_spec a b)
         | |- context [Pos.compare ?a ?b] => destruct (Pos.compare_spec a b)
         end;
  simpl; try discriminate; try reflexivity; try lia.

Lemma SFltb_leb_trans a b c :
  SFltb a b = true -> SFleb b c = true -> SFltb a c = true.
Proof.
  unfold SFltb, SFleb.
  destruct a as [sa|sa| |sa ma ea], b as [sb|sb| |sb mb eb],
    c as [sc|sc| |sc mc ec]; simpl;
    try discriminate;
    try (destruct sa; simpl; try discriminate);
    try (destruct sb; simpl; try discriminate);
    try (destruct sc; simpl; try discriminate);
    try reflexivity;
    change (Pos.compare_cont Eq) with Pos.compare;
    order_cases; intros; subst; try lia;
    try discriminate.
Qed.

Lemma SFmul_comm a b : SF64mul a b = SF64mul b a.
Proof.
  destruct a as [s|s| |s m e], b as [s'|s'| |s' m' e']; simpl;
    try reflexivity; try (rewrite (xorb_comm s s'); reflexivity).
  unfold SF64mul, SFmul.
  now rewrite (xorb_comm s s'), (Pos.mul_comm m m'), (Z.add_comm e e').
Qed.

Lemma SFltb_finite_both_false s1 m1 e1 s2 m2 e2 :
  SFltb (S754_finite s1 m1 e1) (S754_finite s2 m2 e2) = false ->
  SFltb (S754_finite s2 m2 e2) (S754_finite s1 m1 e1) = false ->
  S754_finite s1 m1 e1 = S754_finite s2 m2 e2.
Proof.
  unfold SFltb; simpl.
  change (Pos.compare_cont Eq) with Pos.compare.
  destruct s1, s2; try discriminate;
    order_cases; intros _ _; subst; reflexivity.
Qed.

Lemma SFltb_asym a b : SFltb a b = true -> SFltb b a = false.
Proof.
  unfold SFltb.
  destruct a as [s|s| |s m e], b as [s'|s'| |s' m' e']; simpl;
    try discriminate; try reflexivity;
    try (destruct s, s'; discriminate || reflexivity);
    try (destruct s; discriminate || reflexivity);
    try (destruct s'; discriminate || reflexivity).
  change (Pos.compare_cont Eq) with Pos.compare.
  destruct s, s'; try discriminate; try reflexivity; order_cases.
Qed.

(** Two values neither of which is below the other give the same
    quotient both ways. *)
Lemma SFdiv_unordered a b :
  SFltb a b = false -> SFltb b a = false -> SF64div a b = SF64div b a.
Proof.
  destruct a as [s|s| |s m e], b as [s'|s'| |s' m' e'];
    try reflexivity;
    try (destruct s, s'; unfold SFltb; simpl; discriminate || reflexivity);
    try (destruct s; unfold SFltb; simpl; discriminate || reflexivity);
    try (destruct s'; unfold SFltb; simpl; discriminate || reflexivity).
  intros H1 H2. now rewrite (SFltb_finite_both_false _ _ _ _ _ _ H1 H2).
Qed.

End Binary64Sign.

(** ** The acquisition score on all doubles *)

Lemma mul_comm (a b : float) : a * b = b * a.
Proof.
  apply Prim2SF_inj. rewrite !mul_spec. apply Binary64Sign.SFmul_comm.
Qed.

(** The score is a NaN or has its sign bit clear. *)
Lemma acquisition_r_sign rect c :
  nan_or_sign false (Prim2SF (acquisition_r rect c)).
Proof.
  rewrite acquisition_r_cases.
  destruct (rect_area rect =? 0) eqn:Ha0; [right; reflexivity|].
  destruct (side_ratio rect <=? 0.99) eqn:Ht; [right; reflexivity|].
  unfold area_error_score, fmax.
  rewrite mul_spec, div_spec, abs_spec, sub_spec.
  rewrite leb_spec in Ht. apply Binary64Sign.above_threshold_sign in Ht.
  destruct Ht as [Ht|Ht];
    [rewrite Ht, Binary64Sign.SFmul_nan_r; left; reflexivity|].
  set (A := Prim2SF (rect_area rect)) in *.
  set (C := Prim2SF c).
  assert (HA : A = S754_nan \/ positive_sf A).
  { subst A. rewrite side_ratio_code in Ht.
    rewrite eqb_spec, Binary64.Prim2SF_0 in Ha0. unfold rect_area in *.
    rewrite mul_spec in *.
    assert (Hs : exists s, has_sign s (Prim2SF (cv.width rect))
                           /\ has_sign s (Prim2SF (cv.height rect))).
    { destruct (cv.height rect <? cv.width rect); rewrite div_spec in Ht;
        apply Binary64Sign.SFdiv_sign_inv in Ht;
        destruct Ht as (s & H1 & H2); eauto. }
    destruct Hs as (s & Hw & Hh).
    destruct (Binary64Sign.SFmul_sign s s _ _ Hw Hh) as [E|E];
      [left; exact E|].
    rewrite xorb_nilpotent in E. right.
    apply Binary64Sign.nonzero_sign_positive; assumption. }
  destruct HA as [HA|HA].
  { rewrite HA. left. reflexivity. }
  assert (HD : nan_or_sign false
                 (Prim2SF (if c <? rect_area rect then rect_area rect else c))).
  { destruct (c <? rect_area rect) eqn:Hlt.
    - right. apply Binary64Sign.positive_sf_sign, HA.
    - rewrite ltb_spec in Hlt.
      apply (Binary64Sign.not_below_positive _ _ HA), Hlt. }
  destruct HD as [HD|HD].
  { destruct (c <? rect_area rect) eqn:Hlt.
    - fold A in HD. rewrite HD in HA. destruct HA.
    - fold C in HD. rewrite HD, Binary64Sign.SFsub_nan_r. left. reflexivity. }
  destruct (Binary64Sign.SFabs_sign (SF64sub A C)) as [EX|EX];
    [rewrite EX; left; reflexivity|].
  destruct (Binary64Sign.SFdiv_sign false false _ _ EX HD) as [EQ|EQ];
    [rewrite EQ; left; reflexivity|].
  exact (Binary64Sign.SFmul_sign false false _ _ EQ Ht).
Qed.

Lemma side_ratio_swap x y x' y' w h :
  side_ratio (cv.mkRect2d x y w h) = side_ratio (cv.mkRect2d x' y' h w).
Proof.
  rewrite !side_ratio_code; simpl.
  destruct (h <? w) eqn:E1, (w <? h) eqn:E2; try reflexivity.
  - rewrite ltb_spec in E1, E2.
    rewrite (Binary64Sign.SFltb_asym _ _ E1) in E2. discriminate.
  - apply Prim2SF_inj. rewrite !div_spec. rewrite ltb_spec in E1, E2.
    now apply Binary64Sign.SFdiv_unordered.
Qed.

Lemma valid_positive_threshold rect c sigma :
  (acquisition_r rect c <? sigma) = true -> (0 <? sigma) = true.
Proof.
  rewrite !ltb_spec, Binary64.Prim2SF_0.
  apply Binary64Sign.below_is_positive, acquisition_r_sign.
Qed.

Lemma ltb_leb_trans a b c :
  (a <? b) = true -> (b <=? c) = true -> (a <? c) = true.
Proof.
  rewrite !ltb_spec, leb_spec. apply Binary64Sign.SFltb_leb_trans.
Qed.

(** X1: for all doubles, the score is never below zero: it is a NaN or
    it is zero or above. *)
Theorem acquisition_r_never_negative (rect : cv.Rect2d) (calibrated_area : float) :
  (acquisition_r rect calibrated_area <? 0) = false
  /\ (is_nan (acquisition_r rect calibrated_area) = true
      \/ (0 <=? acquisition_r rect calibrated_area) = true).
Proof.
  pose proof (acquisition_r_sign rect calibrated_area) as H.
  split.
  - rewrite ltb_spec, Binary64.Prim2SF_0.
    apply Binary64Sign.nan_or_sign_not_negative, H.
  - unfold is_nan. rewrite eqb_spec, leb_spec, Binary64.Prim2SF_0.
    destruct (Binary64Sign.nan_or_sign_nan_or_nonnegative _ H) as [E|E];
      [left; now rewrite E | right; exact E].
Qed.

(** The NaN is there for finite sides too: the area of a large square
    overflows. *)
Example acquisition_r_overflow :
  acquisition_r (cv.mkRect2d 0 0 1e200 1e200) 100 = nan.
Proof. reflexivity. Qed.

(** X2: the score does not depend on the position of the rectangle and
    is the same with width and height exchanged, for all doubles. *)
Theorem acquisition_r_swap_sides (x y x' y' w h calibrated_area : float) :
  acquisition_r (cv.mkRect2d x y w h) calibrated_area
  = acquisition_r (cv.mkRect2d x' y' h w) calibrated_area
  /\ acquisition_r (cv.mkRect2d x y w h) calibrated_area
     = acquisition_r (cv.mkRect2d x' y' w h) calibrated_area.
Proof.
  split; [|reflexivity].
  rewrite !acquisition_r_cases.
  rewrite (side_ratio_swap x y x' y' w h).
  unfold rect_area; simpl. rewrite (mul_comm w h). reflexivity.
Qed.

(** With both sides negative the larger-over-smaller ratio turns into
    smaller-over-larger magnitudes, and the squareness check is live. *)
Example acquisition_r_both_negative :
  acquisition_r (cv.mkRect2d 0 0 (-20) (-5)) 100 = 1000
  /\ acquisition_r (cv.mkRect2d 0 0 (-10) (-10)) 100 = 0.
Proof. split; reflexivity. Qed.

(** X3: a box is valid only under a threshold above zero: with
    [area_acq_r_sigma] zero, negative or a NaN neither box is valid. *)
Theorem valid_needs_positive_sigma (g_pm : ParamManager) (s : CompetitionState) :
  is_robot_box_valid g_pm s = true \/ is_object_box_valid g_pm s = true ->
  (0 <? area_acq_r_sigma g_pm) = true.
Proof.
  unfold is_robot_box_valid, is_object_box_valid. intros [H|H].
  - exact (valid_positive_threshold _ _ _ H).
  - exact (valid_positive_threshold _ _ _ H).
Qed.

(** X4: a box that is valid under a threshold is valid under every
    threshold that is at least as large, the calibrated areas being the
    same. *)
Theorem valid_monotone_in_sigma
    (g_pm : ParamManager) (sigma : float) (s : CompetitionState) :
  (area_acq_r_sigma g_pm <=? sigma) = true ->
  (is_robot_box_valid g_pm s = true ->
   is_robot_box_valid
     (mkParams (robot_calib_area g_pm) (object_calib_area g_pm) sigma) s = true)
  /\ (is_object_box_valid g_pm s = true ->
      is_object_box_valid
        (mkParams (robot_calib_area g_pm) (object_calib_area g_pm) sigma) s = true).
Proof.
  intros Hle. unfold is_robot_box_valid, is_object_box_valid; simpl.
  split; intros H; exact (ltb_leb_trans _ _ _ H Hle).
Qed.

Lemma valid_needs_positive_sigma_witness :
  (0 <? area_acq_r_sigma (mkParams 100 100 0.5)) = true.
Proof.
  apply (valid_needs_positive_sigma (mkParams 100 100 0.5)
           (store with_box_robot (Some (cv.mkRect2d 0 0 10 10)) fresh_state)).
  left. reflexivity.
Defined.

Lemma valid_monotone_in_sigma_witness :
  (is_robot_box_valid (mkParams 100 100 0.5)
     (store with_box_robot (Some (cv.mkRect2d 0 0 10 11)) fresh_state) = true ->
   is_robot_box_valid (mkParams 100 100 2)
     (store with_box_robot (Some (cv.mkRect2d 0 0 10 11)) fresh_state) = true)
  /\ (is_object_box_valid (mkParams 100 100 0.5)
        (store with_box_robot (Some (cv.mkRect2d 0 0 10 11)) fresh_state) = true ->
      is_object_box_valid (mkParams 100 100 2)
        (store with_box_robot (Some (cv.mkRect2d 0 0 10 11)) fresh_state) = true).
Proof.
  apply (valid_monotone_in_sigma (mkParams 100 100 0.5) 2
           (store with_box_robot (Some (cv.mkRect2d 0 0 10 11)) fresh_state)).
  reflexivity.
Defined.

Example valid_under_both_thresholds :
  acquisition_r (cv.mkRect2d 0 0 10 11) 100 = 0.1
  /\ is_robot_box_valid (mkParams 100 100 0.5)
       (store with_box_robot (Some (cv.mkRect2d 0 0 10 11)) fresh_state) = true.
Proof. split; reflexivity. Qed.

(** ** Reads and acquisitions, one call at a time *)

Lemma with_robot_box_fresh_same s :
  with_robot_box_fresh (m_robot_box_fresh s) s = s.
Proof. destruct s; reflexivity. Qed.

Lemma with_object_box_fresh_same s :
  with_object_box_fresh (m_object_box_fresh s) s = s.
Proof. destruct s; reflexivity. Qed.

(** X5: a read hands out the stored box whatever [consume] is; a read
    that does not consume leaves the whole state as it was; and a second
    read with the same [consume] changes nothing any more.  For the
    robot box and for the object box. *)
Theorem get_box_reads (consume : bool) (s : CompetitionState) :
  fst (get_robot_box consume s) = box_robot (m_impl s)
  /\ snd (get_robot_box false s) = s
  /\ get_robot_box consume (snd (get_robot_box consume s))
     = get_robot_box consume s
  /\ fst (get_object_box consume s) = box_object (m_impl s)
  /\ snd (get_object_box false s) = s
  /\ get_object_box consume (snd (get_object_box consume s))
     = get_object_box consume s.
Proof.
  unfold get_robot_box, get_object_box; simpl.
  rewrite !andb_true_r, with_robot_box_fresh_same, with_object_box_fresh_same.
  repeat split; destruct consume, s; simpl; rewrite ?andb_false_r, ?andb_true_r;
    reflexivity.
Qed.

(** X6: an acquisition either dies of its null label, or it stores the
    rectangle, marks it fresh and sets the text of its own label to the
    centre of that rectangle, and leaves every other member as it was;
    the getter then hands out that rectangle. *)
Theorem acquire_box_frame (r : cv.Rect2d) (s : CompetitionState) :
  match acquire_robot_box r s with
  | Ok s' =>
      robot_slot s' = (r, true, Some (mkLabel (center_text r "Robot")))
      /\ outside_robot_slot s' = outside_robot_slot s
      /\ fst (get_robot_box false s') = r
  | Fault f => f = NullLabel /\ m_robot_loc_label s = None
  end
  /\ match acquire_object_box r s with
     | Ok s' =>
         object_slot s' = (r, true, Some (mkLabel (center_text r "Object")))
         /\ outside_object_slot s' = outside_object_slot s
         /\ fst (get_object_box false s') = r
     | Fault f => f = NullLabel /\ m_object_loc_label s = None
     end.
Proof.
  unfold acquire_robot_box, acquire_object_box.
  split.
  - destruct (m_robot_loc_label s); repeat split.
  - destruct (m_object_loc_label s); repeat split.
Qed.

(** ** Sequences of calls *)

Lemma step_same_outcome c s1 s2 :
  with_tracking_robot false s1 = with_tracking_robot false s2 ->
  same_outcome (step c s1) (step c s2).
Proof.
  destruct s1, s2. unfold with_tracking_robot; simpl. intros H.
  injection H as -> -> -> -> -> -> -> -> -> -> -> ->.
  destruct c; cbn [step];
    unfold acquire_robot_box, acquire_object_box, halt_traversal,
      halt_object_move, store; simpl;
    repeat match goal with
           | |- context [match ?x with _ => _ end] => destruct x
           end;
    simpl; auto.
Qed.

Lemma run_same_outcome calls : forall s1 s2,
  with_tracking_robot false s1 = with_tracking_robot false s2 ->
  observe s1 = observe s2 ->
  same_outcome (run calls s1) (run calls s2).
Proof.
  induction calls as [|c calls IH]; intros s1 s2 H Ho.
  - simpl. auto.
  - cbn [run]. pose proof (step_same_outcome c s1 s2 H) as Hs.
    destruct (step c s1) as [t1|f1], (step c s2) as [t2|f2]; simpl in *;
      try contradiction.
    + destruct Hs as [Hs1 Hs2]. apply IH; assumption.
    + exact Hs.
Qed.

(** X7: the robot-tracking flag is write-only.  The same calls after
    [set_tracking_robot(b)] and without it end alike: in the same fault,
    or in two states that differ at most in [m_tracking_robot] and on
    which the accessors, the validity checks among them, return the
    same. *)
Theorem tracking_robot_write_only
    (calls : list call) (b : bool) (s : CompetitionState) :
  same_outcome (run calls (set_tracking_robot b s)) (run calls s)
  /\ (forall s1 s2,
        same_outcome (Ok s1) (Ok s2) ->
        forall g_pm,
          is_robot_box_valid g_pm s1 = is_robot_box_valid g_pm s2
          /\ is_object_box_valid g_pm s1 = is_object_box_valid g_pm s2).
Proof.
  split.
  - apply run_same_outcome; reflexivity.
  - intros s1 s2 [_ Ho] g_pm. unfold observe in Ho.
    injection Ho as _ _ _ Hr Hb _ _ _ _.
    unfold is_robot_box_valid, is_object_box_valid. now rewrite Hr, Hb.
Qed.

Lemma run_survives calls : forall s,
  (exists s', run calls s = Ok s')
  <-> survives calls (has_robot_label s) (has_object_label s)
        (has_procedure s) (has_object_procedure s) = true.
Proof.
  induction calls as [|c calls IH]; intros s.
  - simpl. split; eauto.
  - cbn [run].
    destruct c; cbn [step survives bind];
      try (rewrite IH;
           try match goal with a : option cv.Rect2d |- _ => destruct a end;
           reflexivity);
      unfold acquire_robot_box, acquire_object_box, halt_traversal,
        halt_object_move, has_robot_label, has_object_label,
        has_procedure, has_object_procedure.
    + destruct (m_robot_loc_label s) eqn:E; cbn [bind andb].
      * rewrite IH. unfold has_robot_label, has_object_label,
          has_procedure, has_object_procedure. simpl. reflexivity.
      * split; [intros [s' H]; discriminate H | discriminate].
    + destruct (m_object_loc_label s) eqn:E; cbn [bind andb].
      * rewrite IH. unfold has_robot_label, has_object_label,
          has_procedure, has_object_procedure. simpl. reflexivity.
      * split; [intros [s' H]; discriminate H | discriminate].
    + destruct (m_procedure s) eqn:E; cbn [bind andb].
      * rewrite IH. unfold has_robot_label, has_object_label,
          has_procedure, has_object_procedure. simpl. reflexivity.
      * split; [intros [s' H]; discriminate H | discriminate].
    + destruct (m_object_procedure s) eqn:E; cbn [bind andb].
      * rewrite IH. unfold has_robot_label, has_object_label,
          has_procedure, has_object_procedure. simpl. reflexivity.
      * split; [intros [s' H]; discriminate H | discriminate].
Qed.

(** X8: a sequence of calls on a newly constructed state runs to its
    end exactly when no [acquire_robot_box] or [acquire_object_box] is
    called without the status box having been alive at construction,
    and no [halt_traversal] or [halt_object_move] before the [begin_]
    call of its kind. *)
Theorem run_survives_iff (env : Environment) (calls : list call) :
  (exists s, run calls (CompetitionState_new env) = Ok s)
  <-> survives calls (status_box_alive env) (status_box_alive env)
        false false = true.
Proof.
  rewrite run_survives.
  unfold has_robot_label, has_object_label, has_procedure,
    has_object_procedure. simpl.
  destruct (status_box_alive env); reflexivity.
Qed.

Example survives_examples :
  survives [AppendPath 1 2; BeginTraversal; HaltTraversal; HaltTraversal]
    false false false false = true
  /\ survives [BeginTraversal; HaltObjectMove] true true false false = false
  /\ survives [AcquireTargetBox (cv.mkRect2d 0 0 1 1);
               AcquireRobotBox (cv.mkRect2d 0 0 1 1)]
       false false false false = false.
Proof. repeat split. Qed.

(** A property that every call outside [bad] keeps holds after a
    sequence of such calls. *)
Lemma run_preserves (bad : call -> bool) (P : CompetitionState -> Prop) :
  (forall c s s', bad c = false -> P s -> step c s = Ok s' -> P s') ->
  forall calls s s',
    existsb bad calls = false -> P s -> run calls s = Ok s' -> P s'.
Proof.
  intros Hstep. induction calls as [|c calls IH]; intros s s' Hb HP Hrun.
  - injection Hrun as <-. exact HP.
  - simpl in Hb. apply orb_false_iff in Hb. destruct Hb as [Hc Hb].
    apply run_cons_inv in Hrun. destruct Hrun as (s1 & H1 & H2).
    exact (IH s1 s' Hb (Hstep c s s1 Hc HP H1) H2).
Qed.

(** One call that returns, by cases of the call, of the slot it
    dereferences and of the store through the reference. *)
Ltac returned_call c H :=
  destruct c; cbn [step] in H;
  unfold acquire_robot_box, acquire_object_box, halt_traversal,
    halt_object_move, store in H;
  repeat match type of H with
         | context [match ?x with _ => _ end] => destruct x eqn:?
         end;
  try discriminate H; injection H as <-.

Lemma step_robot_label c s s' :
  stores_robot_box c = false ->
  robot_label_shows_box s -> step c s = Ok s' -> robot_label_shows_box s'.
Proof.
  unfold robot_label_shows_box. intros Hc Hinv H.
  returned_call c H; try discriminate Hc; simpl; try exact Hinv; reflexivity.
Qed.

Lemma step_object_label c s s' :
  stores_object_box c = false ->
  object_label_shows_box s -> step c s = Ok s' -> object_label_shows_box s'.
Proof.
  unfold object_label_shows_box. intros Hc Hinv H.
  returned_call c H; try discriminate Hc; simpl; try exact Hinv; reflexivity.
Qed.

(** X9: constructed with the status box alive, the state keeps the text
    of each label at the centre of the stored box of its kind through
    every sequence of calls in which no rectangle is stored through the
    reference that the getter of that box returns. *)
Theorem labels_show_boxes
    (env : Environment) (calls : list call) (s : CompetitionState) :
  status_box_alive env = true ->
  run calls (CompetitionState_new env) = Ok s ->
  (existsb stores_robot_box calls = false -> robot_label_shows_box s)
  /\ (existsb stores_object_box calls = false -> object_label_shows_box s).
Proof.
  intros Halive Hrun. split; intros Hb.
  - refine (run_preserves stores_robot_box robot_label_shows_box
              step_robot_label calls _ s Hb _ Hrun).
    unfold robot_label_shows_box. simpl. now rewrite Halive.
  - refine (run_preserves stores_object_box object_label_shows_box
              step_object_label calls _ s Hb _ Hrun).
    unfold object_label_shows_box. simpl. now rewrite Halive.
Qed.

Lemma labels_show_boxes_witness :
  (existsb stores_robot_box
     [AcquireTargetBox (cv.mkRect2d 1 2 3 4); GetRobotBox true None] = false ->
   robot_label_shows_box
     (with_robot_box_fresh false
        (acquire_target_box (cv.mkRect2d 1 2 3 4) fresh_state)))
  /\ (existsb stores_object_box
        [AcquireTargetBox (cv.mkRect2d 1 2 3 4); GetRobotBox true None] = false ->
      object_label_shows_box
        (with_robot_box_fresh false
           (acquire_target_box (cv.mkRect2d 1 2 3 4) fresh_state))).
Proof.
  apply (labels_show_boxes (mkEnv true 0 false false)
           [AcquireTargetBox (cv.mkRect2d 1 2 3 4); GetRobotBox true None]);
    reflexivity.
Defined.

(** A store through the reference leaves the label behind. *)
Example label_after_store :
  run [GetRobotBox false (Some (cv.mkRect2d 0 0 2 2))] fresh_state
  = Ok (store with_box_robot (Some (cv.mkRect2d 0 0 2 2)) fresh_state)
  /\ m_robot_loc_label
       (store with_box_robot (Some (cv.mkRect2d 0 0 2 2)) fresh_state)
     = Some (mkLabel (mkText "Robot" 0 0))
  /\ center_text (cv.mkRect2d 0 0 2 2) "Robot" = mkText "Robot" 1 1.
Proof. repeat split. Qed.

Lemma step_robot_slot s0 c s s' :
  robot_box_call c = false ->
  robot_slot s = robot_slot s0 -> step c s = Ok s' ->
  robot_slot s' = robot_slot s0.
Proof.
  intros Hc Hinv H.
  returned_call c H; try discriminate Hc; exact Hinv.
Qed.

Lemma step_object_slot s0 c s s' :
  object_box_call c = false ->
  object_slot s = object_slot s0 -> step c s = Ok s' ->
  object_slot s' = object_slot s0.
Proof.
  intros Hc Hinv H.
  returned_call c H; try discriminate Hc; exact Hinv.
Qed.

(** X10: the two boxes are kept apart.  A sequence of calls without
    [acquire_robot_box] and [get_robot_box] leaves the robot box, its
    freshness flag and its label as they were, whatever is done to the
    object box, and the other way round. *)
Theorem box_slots_independent (calls : list call) (s s' : CompetitionState) :
  run calls s = Ok s' ->
  (existsb robot_box_call calls = false -> robot_slot s' = robot_slot s)
  /\ (existsb object_box_call calls = false -> object_slot s' = object_slot s).
Proof.
  intros Hrun. split; intros Hb.
  - exact (run_preserves robot_box_call
             (fun t => robot_slot t = robot_slot s)
             (step_robot_slot s) calls s s' Hb eq_refl Hrun).
  - exact (run_preserves object_box_call
             (fun t => object_slot t = object_slot s)
             (step_object_slot s) calls s s' Hb eq_refl Hrun).
Qed.

Lemma box_slots_independent_witness :
  exists s',
    run [AcquireObjectBox (cv.mkRect2d 1 2 3 4); GetObjectBox true None;
         GetObjectBox false (Some (cv.mkRect2d 0 0 1 1))] fresh_state = Ok s'
    /\ robot_slot s' = robot_slot fresh_state.
Proof.
  eexists. split.
  - reflexivity.
  - apply (proj1 (box_slots_independent
                    [AcquireObjectBox (cv.mkRect2d 1 2 3 4);
                     GetObjectBox true None;
                     GetObjectBox false (Some (cv.mkRect2d 0 0 1 1))]
                    fresh_state _ eq_refl)).
    reflexivity.
Defined.

Lemma step_path c s s' :
  step c s = Ok s' -> get_path s' = path_after [c] (get_path s).
Proof. intros H. returned_call c H; reflexivity. Qed.

Lemma path_after_cons c calls path :
  path_after (c :: calls) path = path_after calls (path_after [c] path).
Proof. destruct c; reflexivity. Qed.

Lemma run_path calls : forall s s',
  run calls s = Ok s' -> get_path s' = path_after calls (get_path s).
Proof.
  induction calls as [|c calls IH]; intros s s' H.
  - injection H as <-. reflexivity.
  - apply run_cons_inv in H. destruct H as (s1 & H1 & H2).
    rewrite path_after_cons, <- (step_path _ _ _ H1). apply IH, H2.
Qed.

Lemma path_after_no_clear calls : forall path,
  existsb is_ClearPath calls = false ->
  path_after calls path = path ++ appended calls.
Proof.
  induction calls as [|c calls IH]; intros path H.
  - simpl. now rewrite app_nil_r.
  - simpl in H. apply orb_false_iff in H. destruct H as [Hc H].
    destruct c; try discriminate Hc; cbn [path_after appended];
      rewrite (IH _ H); try reflexivity.
    now rewrite <- app_assoc.
Qed.

Lemma path_after_last_clear calls1 calls2 path :
  path_after (calls1 ++ ClearPath :: calls2) path = path_after calls2 [].
Proof.
  revert path. induction calls1 as [|c calls1 IH]; intros path.
  - reflexivity.
  - destruct c; cbn [app path_after]; apply IH.
Qed.

(** X11: only [clear_path] and [append_path] change the path.  After a
    sequence of calls without [clear_path] the path is the path from
    before followed by the appended points in call order; after a
    sequence with a [clear_path] it is the points appended after the
    last one. *)
Theorem path_append_only (calls : list call) (s s' : CompetitionState) :
  run calls s = Ok s' ->
  (existsb is_ClearPath calls = false ->
   get_path s' = get_path s ++ appended calls)
  /\ (forall calls1 calls2,
        calls = calls1 ++ ClearPath :: calls2 ->
        existsb is_ClearPath calls2 = false ->
        get_path s' = appended calls2).
Proof.
  intros Hrun. rewrite (run_path _ _ _ Hrun). split.
  - apply path_after_no_clear.
  - intros calls1 calls2 -> Hb.
    rewrite path_after_last_clear. now apply path_after_no_clear.
Qed.

Lemma path_append_only_witness :
  exists s',
    run [AppendPath 1 2; BeginTraversal; SetTrackingRobot true;
         AppendPath 3 4; HaltTraversal]
      (append_path 0 0 fresh_state) = Ok s'
    /\ get_path s' = get_path (append_path 0 0 fresh_state) ++ [(1, 2); (3, 4)].
Proof.
  eexists. split.
  - reflexivity.
  - apply (proj1 (path_append_only
                    [AppendPath 1 2; BeginTraversal; SetTrackingRobot true;
                     AppendPath 3 4; HaltTraversal]
                    (append_path 0 0 fresh_state) _ eq_refl)).
    reflexivity.
Defined.

Lemma step_flags c s s' :
  step c s = Ok s' ->
  m_acquire_walls s' = m_acquire_walls s
  /\ object_type s' = last_object_type [c] (object_type s)
  /\ m_tracking_robot s' = last_tracking_robot [c] (m_tracking_robot s)
  /\ m_walls s' = last_walls [c] (m_walls s).
Proof. intros H. returned_call c H; repeat split. Qed.

Lemma last_object_type_cons c calls t :
  last_object_type (c :: calls) t
  = last_object_type calls (last_object_type [c] t).
Proof. destruct c; reflexivity. Qed.

Lemma last_tracking_robot_cons c calls b :
  last_tracking_robot (c :: calls) b
  = last_tracking_robot calls (last_tracking_robot [c] b).
Proof. destruct c; reflexivity. Qed.

Lemma last_walls_cons c calls w :
  last_walls (c :: calls) w = last_walls calls (last_walls [c] w).
Proof. destruct c; reflexivity. Qed.

Lemma run_flags calls : forall s s',
  run calls s = Ok s' ->
  m_acquire_walls s' = m_acquire_walls s
  /\ object_type s' = last_object_type calls (object_type s)
  /\ m_tracking_robot s' = last_tracking_robot calls (m_tracking_robot s)
  /\ m_walls s' = last_walls calls (m_walls s).
Proof.
  induction calls as [|c calls IH]; intros s s' H.
  - injection H as <-. repeat split.
  - apply run_cons_inv in H. destruct H as (s1 & H1 & H2).
    destruct (step_flags _ _ _ H1) as (Ea & Et & Er & Ew).
    destruct (IH _ _ H2) as (Fa & Ft & Fr & Fw).
    rewrite last_object_type_cons, last_tracking_robot_cons, last_walls_cons.
    rewrite Fa, Ft, Fr, Fw, Ea, Et, Er, Ew. repeat split.
Qed.

(** X12: in every state reached from the constructor, [m_acquire_walls]
    is still [false] (no call sets it, [acquire_walls] included), the
    wall array is the one last passed to [acquire_walls] and null before
    that, and [object_type] returns the value last passed to
    [set_object_type] and [UNACQUIRED] before that. *)
Theorem reached_flags
    (env : Environment) (calls : list call) (s : CompetitionState) :
  run calls (CompetitionState_new env) = Ok s ->
  m_acquire_walls s = false
  /\ m_walls s = last_walls calls None
  /\ object_type s = last_object_type calls (UNACQUIRED env).
Proof.
  intros H. destruct (run_flags _ _ _ H) as (Ea & Et & _ & Ew).
  repeat split; assumption.
Qed.

Lemma reached_flags_witness :
  exists s,
    run [AcquireWalls (Some [cv.mkRect2d 0 0 1 1]); SetObjectType 3;
         AcquireWalls None; SetObjectType 7]
      (CompetitionState_new (mkEnv true 0 false false)) = Ok s
    /\ m_acquire_walls s = false
    /\ m_walls s = None
    /\ object_type s = 7%Z.
Proof.
  eexists. split.
  - reflexivity.
  - apply (reached_flags (mkEnv true 0 false false)
             [AcquireWalls (Some [cv.mkRect2d 0 0 1 1]); SetObjectType 3;
              AcquireWalls None; SetObjectType 7] _ eq_refl).
Defined.

Lemma run_app calls1 : forall calls2 s,
  run (calls1 ++ calls2) s = bind (run calls1 s) (run calls2).
Proof.
  induction calls1 as [|c calls1 IH]; intros calls2 s.
  - reflexivity.
  - cbn [app run]. destruct (step c s) as [s1|f]; simpl; [apply IH|reflexivity].
Qed.

Lemma step_robot_fresh c s s' :
  acquires_robot_box c = false ->
  step c s = Ok s' ->
  is_robot_box_fresh s' = is_robot_box_fresh s && negb (consumes_robot_box c).
Proof.
  intros Hc H. unfold is_robot_box_fresh.
  returned_call c H; try discriminate Hc; simpl;
    try match goal with b : bool |- _ => destruct b end;
    rewrite ?andb_true_r, ?andb_false_r; reflexivity.
Qed.

Lemma step_object_fresh c s s' :
  acquires_object_box c = false ->
  step c s = Ok s' ->
  is_object_box_fresh s' = is_object_box_fresh s && negb (consumes_object_box c).
Proof.
  intros Hc H. unfold is_object_box_fresh.
  returned_call c H; try discriminate Hc; simpl;
    try match goal with b : bool |- _ => destruct b end;
    rewrite ?andb_true_r, ?andb_false_r; reflexivity.
Qed.

Lemma run_robot_fresh calls : forall s s',
  existsb acquires_robot_box calls = false ->
  run calls s = Ok s' ->
  is_robot_box_fresh s'
  = is_robot_box_fresh s && negb (existsb consumes_robot_box calls).
Proof.
  induction calls as [|c calls IH]; intros s s' Hb H.
  - injection H as <-. simpl. now rewrite andb_true_r.
  - simpl in Hb. apply orb_false_iff in Hb. destruct Hb as [Hc Hb].
    apply run_cons_inv in H. destruct H as (s1 & H1 & H2).
    rewrite (IH _ _ Hb H2), (step_robot_fresh _ _ _ Hc H1). simpl.
    now rewrite negb_orb, andb_assoc.
Qed.

Lemma run_object_fresh calls : forall s s',
  existsb acquires_object_box calls = false ->
  run calls s = Ok s' ->
  is_object_box_fresh s'
  = is_object_box_fresh s && negb (existsb consumes_object_box calls).
Proof.
  induction calls as [|c calls IH]; intros s s' Hb H.
  - injection H as <-. simpl. now rewrite andb_true_r.
  - simpl in Hb. apply orb_false_iff in Hb. destruct Hb as [Hc Hb].
    apply run_cons_inv in H. destruct H as (s1 & H1 & H2).
    rewrite (IH _ _ Hb H2), (step_object_fresh _ _ _ Hc H1). simpl.
    now rewrite negb_orb, andb_assoc.
Qed.

Lemma run_after_acquire calls1 c calls2 s s' :
  run (calls1 ++ c :: calls2) s = Ok s' ->
  exists s1 s2, run calls1 s = Ok s1 /\ step c s1 = Ok s2
                /\ run calls2 s2 = Ok s'.
Proof.
  rewrite run_app. destruct (run calls1 s) as [s1|f]; simpl; [|discriminate].
  intros H. apply run_cons_inv in H. destruct H as (s2 & H1 & H2). eauto.
Qed.

(** X13: a box is fresh exactly when it has not been read with
    [consume] since it was last acquired.  After a sequence of calls
    whose last [acquire_robot_box] is followed by the calls [calls2],
    the robot box is fresh if and only if no [get_robot_box(true)] is
    among [calls2], whatever the state was before.  The same for the
    object box. *)
Theorem fresh_since_last_acquire
    (calls1 calls2 : list call) (r : cv.Rect2d) (s s' : CompetitionState) :
  (existsb acquires_robot_box calls2 = false ->
   run (calls1 ++ AcquireRobotBox r :: calls2) s = Ok s' ->
   is_robot_box_fresh s' = negb (existsb consumes_robot_box calls2))
  /\ (existsb acquires_object_box calls2 = false ->
      run (calls1 ++ AcquireObjectBox r :: calls2) s = Ok s' ->
      is_object_box_fresh s' = negb (existsb consumes_object_box calls2)).
Proof.
  split; intros Hb H; apply run_after_acquire in H;
    destruct H as (s1 & s2 & _ & Hacq & H2).
  - rewrite (run_robot_fresh _ _ _ Hb H2).
    cbn [step] in Hacq. unfold acquire_robot_box in Hacq.
    destruct (m_robot_loc_label s1); [|discriminate Hacq].
    injection Hacq as <-. reflexivity.
  - rewrite (run_object_fresh _ _ _ Hb H2).
    cbn [step] in Hacq. unfold acquire_object_box in Hacq.
    destruct (m_object_loc_label s1); [|discriminate Hacq].
    injection Hacq as <-. reflexivity.
Qed.

Lemma fresh_since_last_acquire_witness :
  exists s',
    run ([GetRobotBox true None] ++ AcquireRobotBox (cv.mkRect2d 1 2 3 4)
           :: [GetRobotBox false None; GetObjectBox true None])
      fresh_state = Ok s'
    /\ is_robot_box_fresh s'
       = negb (existsb consumes_robot_box
                 [GetRobotBox false None; GetObjectBox true None]).
Proof.
  eexists. split.
  - reflexivity.
  - apply (proj1 (fresh_since_last_acquire [GetRobotBox true None]
                    [GetRobotBox false None; GetObjectBox true None]
                    (cv.mkRect2d 1 2 3 4) fresh_state _));
      reflexivity.
Defined.

(** ** Freshness over all calls *)

Lemma step_robot_fresh_drop c s s' :
  step c s = Ok s' ->
  is_robot_box_fresh s = true -> is_robot_box_fresh s' = false ->
  consumes_robot_box c = true.
Proof.
  unfold is_robot_box_fresh. intros H.
  returned_call c H; simpl; intros Ht Hf; rewrite ?Ht in Hf;
    try discriminate Hf; try reflexivity;
    match goal with b : bool |- _ => destruct b end;
    simpl in Hf; rewrite ?Ht in Hf; try discriminate Hf; reflexivity.
Qed.

Lemma step_object_fresh_drop c s s' :
  step c s = Ok s' ->
  is_object_box_fresh s = true -> is_object_box_fresh s' = false ->
  consumes_object_box c = true.
Proof.
  unfold is_object_box_fresh. intros H.
  returned_call c H; simpl; intros Ht Hf; rewrite ?Ht in Hf;
    try discriminate Hf; try reflexivity;
    match goal with b : bool |- _ => destruct b end;
    simpl in Hf; rewrite ?Ht in Hf; try discriminate Hf; reflexivity.
Qed.

Lemma step_robot_fresh_rise c s s' :
  step c s = Ok s' ->
  is_robot_box_fresh s = false -> is_robot_box_fresh s' = true ->
  acquires_robot_box c = true.
Proof.
  unfold is_robot_box_fresh. intros H.
  returned_call c H; simpl; intros Hf Ht; rewrite ?Hf in Ht;
    try discriminate Ht; reflexivity.
Qed.

Lemma step_object_fresh_rise c s s' :
  step c s = Ok s' ->
  is_object_box_fresh s = false -> is_object_box_fresh s' = true ->
  acquires_object_box c = true.
Proof.
  unfold is_object_box_fresh. intros H.
  returned_call c H; simpl; intros Hf Ht; rewrite ?Hf in Ht;
    try discriminate Ht; reflexivity.
Qed.

Lemma run_robot_fresh_kept calls : forall s s',
  run calls s = Ok s' ->
  existsb consumes_robot_box calls = false ->
  is_robot_box_fresh s = true -> is_robot_box_fresh s' = true.
Proof.
  induction calls as [|c calls IH]; intros s s' H Hb Ht.
  - injection H as <-. exact Ht.
  - simpl in Hb. apply orb_false_iff in Hb. destruct Hb as [Hc Hb].
    apply run_cons_inv in H. destruct H as (s1 & H1 & H2).
    apply (IH _ _ H2 Hb).
    destruct (is_robot_box_fresh s1) eqn:E; [reflexivity|].
    rewrite (step_robot_fresh_drop _ _ _ H1 Ht E) in Hc. discriminate Hc.
Qed.

Lemma run_object_fresh_kept calls : forall s s',
  run calls s = Ok s' ->
  existsb consumes_object_box calls = false ->
  is_object_box_fresh s = true -> is_object_box_fresh s' = true.
Proof.
  induction calls as [|c calls IH]; intros s s' H Hb Ht.
  - injection H as <-. exact Ht.
  - simpl in Hb. apply orb_false_iff in Hb. destruct Hb as [Hc Hb].
    apply run_cons_inv in H. destruct H as (s1 & H1 & H2).
    apply (IH _ _ H2 Hb).
    destruct (is_object_box_fresh s1) eqn:E; [reflexivity|].
    rewrite (step_object_fresh_drop _ _ _ H1 Ht E) in Hc. discriminate Hc.
Qed.

(** C4: with the label attached, [acquire_robot_box] returns, and
    whenever it returns it leaves the robot box fresh; a consuming read
    leaves it not fresh; any number of reads that do not consume leave
    the flag as it was; a read that changes the flag is a consuming read
    of a fresh box, and no read sets the flag.  Over all calls: a call
    after which a fresh box is not fresh is a consuming read of that
    box, a call after which a box that was not fresh is fresh is its
    acquisition, and a sequence of calls after which a fresh box is not
    fresh has a consuming read of that box in it.  The same for the
    object box. *)
Theorem box_freshness :
  (forall s r, m_robot_loc_label s <> None ->
     exists s', acquire_robot_box r s = Ok s'
                /\ is_robot_box_fresh s' = true
                /\ is_robot_box_fresh (snd (get_robot_box true s')) = false)
  /\ (forall s r s', acquire_robot_box r s = Ok s' ->
        is_robot_box_fresh s' = true)
  /\ (forall s, is_robot_box_fresh (snd (get_robot_box true s)) = false)
  /\ (forall n s,
        is_robot_box_fresh (get_robot_box_times n false s)
        = is_robot_box_fresh s)
  /\ (forall consume s,
        is_robot_box_fresh (snd (get_robot_box consume s))
        <> is_robot_box_fresh s ->
        consume = true /\ is_robot_box_fresh s = true
        /\ is_robot_box_fresh (snd (get_robot_box consume s)) = false)
  /\ (forall s r, m_object_loc_label s <> None ->
     exists s', acquire_object_box r s = Ok s'
                /\ is_object_box_fresh s' = true
                /\ is_object_box_fresh (snd (get_object_box true s')) = false)
  /\ (forall s r s', acquire_object_box r s = Ok s' ->
        is_object_box_fresh s' = true)
  /\ (forall s, is_object_box_fresh (snd (get_object_box true s)) = false)
  /\ (forall n s,
        is_object_box_fresh (get_object_box_times n false s)
        = is_object_box_fresh s)
  /\ (forall consume s,
        is_object_box_fresh (snd (get_object_box consume s))
        <> is_object_box_fresh s ->
        consume = true /\ is_object_box_fresh s = true
        /\ is_object_box_fresh (snd (get_object_box consume s)) = false)
  /\ (forall c s s',
        step c s = Ok s' ->
        is_robot_box_fresh s = true -> is_robot_box_fresh s' = false ->
        consumes_robot_box c = true)
  /\ (forall c s s',
        step c s = Ok s' ->
        is_robot_box_fresh s = false -> is_robot_box_fresh s' = true ->
        acquires_robot_box c = true)
  /\ (forall calls s s',
        run calls s = Ok s' ->
        is_robot_box_fresh s = true -> is_robot_box_fresh s' = false ->
        existsb consumes_robot_box calls = true)
  /\ (forall c s s',
        step c s = Ok s' ->
        is_object_box_fresh s = true -> is_object_box_fresh s' = false ->
        consumes_object_box c = true)
  /\ (forall c s s',
        step c s = Ok s' ->
        is_object_box_fresh s = false -> is_object_box_fresh s' = true ->
        acquires_object_box c = true)
  /\ (forall calls s s',
        run calls s = Ok s' ->
        is_object_box_fresh s = true -> is_object_box_fresh s' = false ->
        existsb consumes_object_box calls = true).
Proof.
  split; [|split; [|split; [|split; [|split; [|split; [|split; [|split;
    [|split; [|split; [|split; [|split; [|split; [|split; [|split]]]]]]]]]]]]]].
  - intros s r H. destruct (acquire_robot_box_ok r s H) as (s' & E & F & _).
    exists s'. rewrite get_robot_box_fresh, andb_false_r. auto.
  - intros s r s'. unfold acquire_robot_box.
    destruct (m_robot_loc_label s); intros H; [|discriminate H].
    injection H as <-. reflexivity.
  - intros s. rewrite get_robot_box_fresh. apply andb_false_r.
  - intros n s. apply get_robot_box_times_fresh.
  - intros consume s. rewrite get_robot_box_fresh.
    destruct consume, (is_robot_box_fresh s); simpl; intros H;
      repeat split; congruence.
  - intros s r H. destruct (acquire_object_box_ok r s H) as (s' & E & F & _).
    exists s'. rewrite get_object_box_fresh, andb_false_r. auto.
  - intros s r s'. unfold acquire_object_box.
    destruct (m_object_loc_label s); intros H; [|discriminate H].
    injection H as <-. reflexivity.
  - intros s. rewrite get_object_box_fresh. apply andb_false_r.
  - intros n s. apply get_object_box_times_fresh.
  - intros consume s. rewrite get_object_box_fresh.
    destruct consume, (is_object_box_fresh s); simpl; intros H;
      repeat split; congruence.
  - exact step_robot_fresh_drop.
  - exact step_robot_fresh_rise.
  - intros calls s s' Hrun Ht Hf.
    destruct (existsb consumes_robot_box calls) eqn:E; [reflexivity|].
    rewrite (run_robot_fresh_kept _ _ _ Hrun E Ht) in Hf. discriminate Hf.
  - exact step_object_fresh_drop.
  - exact step_object_fresh_rise.
  - intros calls s s' Hrun Ht Hf.
    destruct (existsb consumes_object_box calls) eqn:E; [reflexivity|].
    rewrite (run_object_fresh_kept _ _ _ Hrun E Ht) in Hf. discriminate Hf.
Qed.


Lemma box_freshness_witness :
  exists s',
    acquire_robot_box (cv.mkRect2d 1 2 3 4) fresh_state = Ok s'
    /\ is_robot_box_fresh s' = true
    /\ is_robot_box_fresh (snd (get_robot_box true s')) = false.
Proof.
  apply (proj1 box_freshness fresh_state (cv.mkRect2d 1 2 3 4)).
  simpl. discriminate.
Defined.
